(* ===== verification/_CoqProject ===== *)
-Q . S2P
Prelude.v
RustStr.v
Navigation.v
Sidecar.v
Window.v
Router.v
Setup.v
System.v
Launch.v
Readiness.v
Schedule.v
Main.v
Session.v
