(* ===== verification/Prelude.v ===== *)
(** * QuickView launcher: a verification development

    The program is the desktop launcher of QuickView,
    [src/src-tauri/src/main.rs] (one function, [main]).  Its parts:

    - the Window Manager (library code of Tauri, not in the repository):
      two windows, labelled ["splashscreen"] and ["main"], looked up in
      [setup] and later evaluated into, closed and shown;
    - the Process Supervisor: [Command::new_sidecar("trame")] with fixed
      arguments and the environment [PYTHONUNBUFFERED=1], spawned once;
      it returns a receiver of [CommandEvent]s;
    - the Event Router: the [async] task spawned in [setup], a
      [while let Some(event) = rx.recv().await] loop that prints every
      event and, on standard-output lines, reacts to two markers:
      ["tauri-server-port="] (the port is [line.split("=")] token 1,
      trimmed, formatted into a [window.location.replace] script that is
      evaluated in the main window) and ["tauri-client-ready"] (sleep two
      seconds, close the splash window with [unwrap], show the main window
      with [unwrap]);
    - [setup] itself: the two [get_window(..).unwrap()] lookups, the
      macOS-only display-scaling block, the sidecar spawn with [expect],
      and the spawn of the router task.

    ** Files, and the code each models
    - [Prelude]: this header, the [quickview_scope] notations, Rust's
      [Result] ([result]), the panic monad [outcome] ([Ret]/[Panic], with
      [unwrap], [unwrap_opt] and [expect] carrying Rust's panic messages),
      the state-and-panic monad [stm] in which [setup] and the router task
      are written, [target_os] for the [#[cfg(target_os)]] blocks, the
      hint databases [quickview]/[quickview_rw] and the string lemmas.
    - [RustStr]: the [&str] operations the router uses, translated from
      their Rust meaning, on the UTF-8 bytes of the string:
      [str_contains] ([str::contains]), [str_split] ([str::split] on a
      one-character pattern, collected into a [Vec]), [vec_index] ([Vec]
      indexing, panicking out of range with Rust's message) and
      [str_trim] ([str::trim]: [utf8_chars] cuts the bytes into
      characters, [utf8_code] decodes one, [char_is_whitespace] is
      [char::is_whitespace] with Unicode's [White_Space], and the
      whitespace characters at both ends are dropped).  Lemmas: the
      pieces concatenate back to the string, decoding distributes over
      a valid UTF-8 prefix, trailing whitespace leaves the trim
      unchanged, whitespace holds no ['='].
    - [Navigation]: the two markers, [extract_port] (lines 84-87:
      [line.split("=")], token [1], [trim]) and the navigation script
      (lines 90-104, its text kept verbatim).  Theorems: the behaviour of
      [extract_port] on every line (never a panic once the line holds
      [=]) and the round trip from the server's ["tauri-server-port=P"]
      line, whatever whitespace ends it, back to [P].
    - [Sidecar]: [CommandEvent] and [TerminatedPayload], the command
      built at lines 69-74 ([server_command]: the variables it sets are
      added to the environment the child inherits) and the event channel
      ([Channel], a FIFO with an open flag and an optional capacity).
    - [Window]: the calls made on Tauri windows as the class [WindowOps],
      the laws the program relies on as [WindowLaws], and the reference
      implementation [RefWindows] (a [gmap] from labels to records) that
      satisfies them and in which the witnesses compute; like Tauri 1,
      it answers [Ok] to a call on a closed window and changes nothing.
    - [Router]: the [World] (windows, standard output, a clock in
      seconds, the trace of effects), [handle_stdout], [handle_event]
      (lines 81-145) and [router_loop] (line 80) in [stm]; the
      specification [event_effects] that lists the effects of each event
      and its interpreter [exec_effects].  Theorems: the loop refines the
      effect specification; per event kind, the exact effects, output and
      window changes; without a ready line no window changes, and after
      the first ready line the splash is closed and the main window shown;
      the clock advances two seconds per ready line.
    - [Setup]: the [Platform] ([new_sidecar], [spawn], the OS), the
      macOS scaling block [dpi_setup] (lines 18-67) and [setup] (lines
      14-78).  Theorems: the panics of [setup] (missing window, sidecar
      errors, with their messages), its result when all succeeds, and
      the resize happens exactly when [scale_factor > 1.5] as an IEEE-754
      comparison.
    - [System]: the running program as the step relation [step]: the
      child's side (a send, the close) or one turn of the router task
      ([task_step]: receive and handle, panic, or end on [None]).
      Theorems, by induction on [rtc step]: every reachable state is the
      sequential loop run on the events received so far (the sequential
      loop refines the concurrent system), the task drains its channel,
      and the readiness results hold of every reachable state.
    - [Launch]: the whole launch: [setup]'s world, the child's output
      forwarded by Tauri's readers (lost once a crashed task dropped the
      receiver), and the router task, as [lstep] on [Launch]; a
      deterministic scheduler [launch_run] (each launch step is a
      system step, and fuel [launch_measure] takes the scheduler to the
      end).  Theorems: termination within [launch_measure] steps; no
      deadlock (stuck exactly when over); and the end-to-end result: one
      ready line gives every event handled in order, the task finished,
      the main window shown and the splash closed.
    - [Readiness]: the order of [close] and [show]: every [show] of the
      main window comes right after a [close] of the splash, in every
      reachable state.  Lemmas for a ready line that comes when the
      splash is already closed: if [close] of a closed window returns
      [Ok] and changes nothing (Tauri 1), every event is then handled
      without a panic and the windows stay as they are.
    - [Schedule]: what a launch ends with.  A finished task received the
      whole output and holds the loop's world; a crashed task stopped
      at the first event whose handler panics ([first_panic]) and the
      rest of the output is lost.  Theorems: two final launches from the
      same start agree on the task's end, the events received and the
      world, whatever the schedule and the channel capacities.
    - [Session]: the launch as the user sees it.  Theorems: after the
      server's port line and its ready line, every schedule sent the main
      window the navigation script for that port before showing it; a
      finished launch received and logged every event of the server's
      output in order and slept two seconds per ready line; with Tauri
      1's [close], more ready lines after the first change nothing: the
      launch finishes with the main window shown.
    - [Main]: [fn main] (lines 12-14, 148-151): the [setup] closure
      ending in [Ok(())] ([setup_hook]), [run] and its [expect]
      ([app_main]; the outcome of Tauri's build of the application is
      an argument).  Theorem: the [expect] fires exactly when the build
      fails; once built, [main] panics exactly when [setup] does, with
      its message.

    ** Bounds and units
    The sleep of line 109 is [Duration::from_secs(2)] and the clock of
    [World] counts seconds ([ESleep 2]), a small [nat].  No fuel is
    needed for the loop: it recurses on the list of received events, and
    [system_drains] bounds the number of steps that empty a closed
    channel by its length plus one.  The launch scheduler [launch_run]
    takes fuel; [launch_measure] ([2] per event of the child's output,
    plus the queue, the open channel and the running task, so
    [2 * |output| + 2] at the start) is enough, because every step
    lowers it ([lstep_measure], [launch_run_final]).  The scale factor
    is a [spec_float] compared with [SFltb] against the float [1.5], as Rust's [f64]
    comparison [scale_factor > 1.5]; no other arithmetic appears.

    ** Assumptions
    The window manager is Tauri's: its behaviour enters only through
    [WindowLaws], which [RefWindows] shows satisfiable.  A panic inside
    the spawned task kills the task, not the process ([Crashed] in
    [System]).  Tauri's spawn and its readers (library code) are
    modelled in [Launch] from their behaviour: the output forwarded in
    order, a full channel making the reader wait, a failed send after
    the receiver is gone ignored, the channel closed at the end.
    What a second ready line does depends on Tauri's [close] of a
    window that is already closed; Tauri 1 returns [Ok], which is the
    hypothesis [close_closed_ok] of [launch_ready_repeated], true of
    [RefWindows].  Rust's [unwrap] and [expect] append the [Debug] form
    of the error to the panic message ([": {e:?}"]); the model keeps the
    message without it, since errors are opaque strings here.
    Strings are the UTF-8 bytes of Rust's [&str]; the theorems on
    [str_trim] assume valid UTF-8 where they need it, as every [&str] is.
    A handler that panics is modelled by the state monad [stm], which
    returns no state on a panic: the crashed task's world is the one
    before the event it panicked on.  What that handler did before its
    [unwrap] (the [println] of the line, the sleep, an [eval]) is
    therefore not in the crashed world.  No theorem depends on it:
    those effects print, wait or evaluate a script, and change no
    window's open or visible state, which is all the theorems on
    crashed launches state.

    ** Not modelled
    Tauri's window and webview internals (only the interface the program
    relies on), the JavaScript of the scripts (they are strings), the
    sidecar server itself (its output is an arbitrary list of events),
    [generate_context!] (configuration generated at build time: it is
    the platform and initial world [app_main] receives), how Tauri
    builds the application (only whether the build fails, the argument
    [build] of [app_main]), the [use] and
    [cfg_attr] lines, and packaging. *)

From Stdlib Require Import Ascii String.
From stdpp Require Import base list strings.

Declare Scope quickview_scope.
Delimit Scope quickview_scope with qv.
Open Scope quickview_scope.

Create HintDb quickview discriminated.
Create Rewrite HintDb quickview_rw.

(** ** Rust's [Result<T, E>] *)

Inductive result (A E : Type) : Type :=
| Ok (a : A)
| Err (e : E).
Arguments Ok {A E} a.
Arguments Err {A E} e.

(** ** Computations that may panic

    [Ret a] is a normal return; [Panic msg] is a Rust panic with its
    message.  [unwrap] and [expect] turn a [result] or an [option] into
    an [outcome]. *)

Inductive outcome (A : Type) : Type :=
| Ret (a : A)
| Panic (msg : string).
Arguments Ret {A} a.
Arguments Panic {A} msg.

#[export] Instance outcome_ret : MRet outcome := @Ret.
#[export] Instance outcome_bind : MBind outcome := λ A B f m,
  match m with
  | Ret a => f a
  | Panic msg => Panic msg
  end.

Notation "'panic!' m" := (Panic m) (at level 10, m at level 9) : quickview_scope.

(** [Result::unwrap]: the panic message of Rust's [unwrap] on an [Err]. *)
Definition unwrap {A E} (r : result A E) : outcome A :=
  match r with
  | Ok a => Ret a
  | Err _ => Panic "called `Result::unwrap()` on an `Err` value"
  end.

(** [Option::unwrap]. *)
Definition unwrap_opt {A} (o : option A) : outcome A :=
  match o with
  | Some a => Ret a
  | None => Panic "called `Option::unwrap()` on a `None` value"
  end.

(** [Result::expect(msg)]. *)
Definition expect {A E} (r : result A E) (msg : string) : outcome A :=
  match r with
  | Ok a => Ret a
  | Err _ => Panic msg
  end.

Definition is_panic {A} (m : outcome A) : bool :=
  match m with Ret _ => false | Panic _ => true end.

(** ** Generic lemmas on [outcome] *)

Lemma outcome_bind_Ret {A B} (a : A) (f : A → outcome B) :
  (Ret a ≫= f) = f a.
Proof. reflexivity. Qed.

Lemma outcome_bind_Panic {A B} msg (f : A → outcome B) :
  (Panic msg ≫= f) = Panic msg.
Proof. reflexivity. Qed.

Lemma outcome_bind_Ret_inv {A B} (m : outcome A) (f : A → outcome B) b :
  (m ≫= f) = Ret b → ∃ a, m = Ret a ∧ f a = Ret b.
Proof. destruct m; simpl; [eauto | discriminate]. Qed.

Lemma unwrap_Ret_inv {A E} (r : result A E) a :
  unwrap r = Ret a → r = Ok a.
Proof. destruct r; simpl; congruence. Qed.

Lemma unwrap_opt_Ret_inv {A} (o : option A) a :
  unwrap_opt o = Ret a → o = Some a.
Proof. destruct o; simpl; congruence. Qed.

Lemma expect_Ret_inv {A E} (r : result A E) msg a :
  expect r msg = Ret a → r = Ok a.
Proof. destruct r; simpl; congruence. Qed.

#[export] Hint Rewrite @outcome_bind_Ret @outcome_bind_Panic : quickview_rw.

(** Invert an equation [m ≫= f = Ret b] or an [unwrap]/[expect] that
    returned, keeping the names the goal gives. *)
Ltac inv_outcome :=
  repeat match goal with
  | H : (_ ≫= _) = Ret _ |- _ =>
      let a := fresh "a" in let Ha := fresh "Ha" in
      apply outcome_bind_Ret_inv in H as (a & Ha & H)
  | H : unwrap _ = Ret _ |- _ => apply unwrap_Ret_inv in H
  | H : unwrap_opt _ = Ret _ |- _ => apply unwrap_opt_Ret_inv in H
  | H : expect _ _ = Ret _ |- _ => apply expect_Ret_inv in H
  | H : Ret _ = Ret _ |- _ => injection H as H
  | H : Panic _ = Ret _ |- _ => discriminate H
  end.

(** ** Generic lemmas on strings

    [simpl] does not unfold [String.append] under stdpp's notations, so
    its two equations are stated once here and used by rewriting. *)

Lemma string_app_nil_l (s : string) : ("" +:+ s)%string = s.
Proof. reflexivity. Qed.

Lemma string_app_cons (c : ascii) (s1 s2 : string) :
  (String c s1 +:+ s2)%string = String c (s1 +:+ s2).
Proof. reflexivity. Qed.

#[export] Hint Rewrite string_app_nil_l string_app_cons : quickview_rw.

(** Push [String.append] through literals and constructors, then simplify. *)
Ltac simpl_str := autorewrite with quickview_rw in *; simpl in *.

Lemma string_app_assoc (s1 s2 s3 : string) :
  (s1 +:+ s2 +:+ s3)%string = ((s1 +:+ s2) +:+ s3)%string.
Proof. induction s1; autorewrite with quickview_rw; congruence. Qed.

Lemma string_app_nil_r (s : string) : (s +:+ "")%string = s.
Proof. induction s; autorewrite with quickview_rw; congruence. Qed.

Lemma string_length_app (s1 s2 : string) :
  String.length (s1 +:+ s2) = String.length s1 + String.length s2.
Proof. induction s1; autorewrite with quickview_rw; simpl; lia. Qed.

#[export] Hint Rewrite string_app_nil_r : quickview_rw.

(** ** State passing with panics

    [stm S A] threads a state [S] through a computation that may panic:
    the router task and [setup] are written in it. *)

Definition stm (S A : Type) : Type := S → outcome (A * S).

#[export] Instance stm_ret {S} : MRet (stm S) := λ A a s, Ret (a, s).
#[export] Instance stm_bind {S} : MBind (stm S) := λ A B f m s,
  match m s with
  | Ret (a, s') => f a s'
  | Panic msg => Panic msg
  end.

(** Run a computation that does not touch the state. *)
Definition stm_lift {S A} (m : outcome A) : stm S A := λ s,
  match m with
  | Ret a => Ret (a, s)
  | Panic msg => Panic msg
  end.

Definition stm_modify {S} (f : S → S) : stm S unit := λ s, Ret (tt, f s).

Lemma stm_bind_Ret {S A B} (m : stm S A) (f : A → stm S B) s a s' :
  m s = Ret (a, s') → (m ≫= f) s = f a s'.
Proof. intros Hm. unfold mbind, stm_bind. by rewrite Hm. Qed.

Lemma stm_bind_Panic {S A B} (m : stm S A) (f : A → stm S B) s msg :
  m s = Panic msg → (m ≫= f) s = Panic msg.
Proof. intros Hm. unfold mbind, stm_bind. by rewrite Hm. Qed.

Lemma stm_bind_Ret_inv {S A B} (m : stm S A) (f : A → stm S B) s b s'' :
  (m ≫= f) s = Ret (b, s'') → ∃ a s', m s = Ret (a, s') ∧ f a s' = Ret (b, s'').
Proof.
  unfold mbind, stm_bind. destruct (m s) as [[a s']|]; [eauto | discriminate].
Qed.

Lemma stm_bind_Panic_inv {S A B} (m : stm S A) (f : A → stm S B) s msg :
  (m ≫= f) s = Panic msg →
  m s = Panic msg ∨ ∃ a s', m s = Ret (a, s') ∧ f a s' = Panic msg.
Proof.
  unfold mbind, stm_bind. destruct (m s) as [[a s']|]; [eauto | by intros [= ->]; left].
Qed.

Lemma stm_ret_run {S A} (a : A) (s : S) : (mret a : stm S A) s = Ret (a, s).
Proof. reflexivity. Qed.

(** ** The platform [#[cfg(target_os = ...)]] selects on *)

Inductive target_os : Type := MacOS | Windows | Linux | OtherOs.

#[export] Instance target_os_eq_dec : EqDecision target_os.
Proof. solve_decision. Defined.
