(* ===== verification/RustStr.v ===== *)
(** * Rust string operations used by the event router

    [main.rs] lines 84-87 use [str::contains], [str::split] collected into
    a [Vec<&str>], indexing [tokens[1]] and [str::trim].  They are library
    functions: each is written here from its Rust meaning, executable.
    Strings are Stdlib [string]s holding the UTF-8 bytes of the Rust
    [&str].  Searching and splitting on the ASCII patterns the router
    uses work on bytes as Rust's do (no byte of a multi-byte encoding is
    ASCII); [str_trim] decodes the characters and drops the Unicode
    whitespace ones ([char::is_whitespace]) at both ends. *)

From Stdlib Require Import Ascii String.
From stdpp Require Import base list strings pretty.
From S2P Require Import Prelude.

Open Scope quickview_scope.

(** ** Prefix test and [str::contains] *)

Fixpoint starts_with (pat s : string) : bool :=
  match pat, s with
  | "", _ => true
  | String a p, String b s' => Ascii.eqb a b && starts_with p s'
  | String _ _, "" => false
  end%string.

(** [s.contains(pat)]: [pat] occurs at some position of [s]. *)
Fixpoint str_contains (pat s : string) : bool :=
  starts_with pat s ||
  match s with
  | "" => false
  | String _ s' => str_contains pat s'
  end%string.

Notation "pat 'in_str' s" := (str_contains pat s = true)
  (at level 70, no associativity) : quickview_scope.

(** ** [str::split] with a one-character pattern

    [s.split("=")] yields the maximal pieces of [s] between occurrences
    of ['='], from left to right; a string with [n] occurrences has
    [n + 1] pieces (empty pieces included, [""] has one). *)

Fixpoint str_split (c : ascii) (s : string) : list string :=
  match s with
  | "" => [""]
  | String a s' =>
      let rest := str_split c s' in
      if Ascii.eqb a c then "" :: rest
      else match rest with
           | t :: ts => String a t :: ts
           | [] => [String a ""]
           end
  end%string.

(** [tokens[i]] on a [Vec]: out of range it panics with Rust's message. *)
Definition vec_index {A} (v : list A) (i : nat) : outcome A :=
  match v !! i with
  | Some x => Ret x
  | None =>
      Panic ("index out of bounds: the len is " +:+ pretty (length v) +:+
             " but the index is " +:+ pretty i)%string
  end.

(** ** [str::trim] on UTF-8

    A Rust [&str] is UTF-8; here it is the byte string of its encoding.
    [str::trim] is [self.trim_matches(|c: char| c.is_whitespace())]: it
    decodes the characters of the string and drops the ones with
    Unicode's [White_Space] property at both ends.  [utf8_chars] cuts the
    bytes into the encodings of the characters, [utf8_code] decodes one,
    [char_is_whitespace] is [char::is_whitespace]. *)

(** The length of the encoding a byte leads: 1 for ASCII, and for a byte
    that cannot lead (valid UTF-8 never has one there). *)
Definition utf8_len (a : ascii) : nat :=
  let n := N_of_ascii a in
  if (n <? 0xC0)%N then 1 else if (n <? 0xE0)%N then 2
  else if (n <? 0xF0)%N then 3 else if (n <? 0xF8)%N then 4 else 1.

(** The bytes cut into the encodings of their characters, in order. *)
Fixpoint utf8_chars (s : string) : list string :=
  match s with
  | "" => []
  | String a s1 =>
      match utf8_len a, s1 with
      | 2, String b s2 => String a (String b "") :: utf8_chars s2
      | 3, String b (String c s3) => String a (String b (String c "")) :: utf8_chars s3
      | 4, String b (String c (String d s4)) =>
          String a (String b (String c (String d ""))) :: utf8_chars s4
      | _, _ => String a "" :: utf8_chars s1
      end
  end%string.

(** A continuation byte [10xxxxxx] carries six bits. *)
Definition utf8_cont (b : ascii) : option N :=
  let n := N_of_ascii b in
  if (0x80 <=? n)%N && (n <? 0xC0)%N then Some (n - 0x80)%N else None.

(** The scalar value one encoding stands for; [None] when it is not the
    shortest encoding of a Unicode scalar value (surrogates and values
    past [0x10FFFF] excluded). *)
Definition utf8_code (c : string) : option N :=
  match c with
  | String a "" =>
      let n := N_of_ascii a in if (n <? 0x80)%N then Some n else None
  | String a (String b "") =>
      let n := N_of_ascii a in
      match utf8_cont b with
      | Some x =>
          let v := ((n - 0xC0) * 0x40 + x)%N in
          if (0xC0 <=? n)%N && (n <? 0xE0)%N && (0x80 <=? v)%N then Some v else None
      | None => None
      end
  | String a (String b (String c0 "")) =>
      let n := N_of_ascii a in
      match utf8_cont b, utf8_cont c0 with
      | Some x, Some y =>
          let v := ((n - 0xE0) * 0x1000 + x * 0x40 + y)%N in
          if (0xE0 <=? n)%N && (n <? 0xF0)%N && (0x800 <=? v)%N &&
             negb ((0xD800 <=? v)%N && (v <=? 0xDFFF)%N) then Some v else None
      | _, _ => None
      end
  | String a (String b (String c0 (String d ""))) =>
      let n := N_of_ascii a in
      match utf8_cont b, utf8_cont c0, utf8_cont d with
      | Some x, Some y, Some z =>
          let v := ((n - 0xF0) * 0x40000 + x * 0x1000 + y * 0x40 + z)%N in
          if (0xF0 <=? n)%N && (n <? 0xF8)%N && (0x10000 <=? v)%N && (v <=? 0x10FFFF)%N
          then Some v else None
      | _, _, _ => None
      end
  | _ => None
  end%string.

(** Unicode's [White_Space] property (PropList.txt). *)
Definition white_space (c : N) : bool :=
  ((0x09 <=? c)%N && (c <=? 0x0D)%N) || (c =? 0x20)%N || (c =? 0x85)%N ||
  (c =? 0xA0)%N || (c =? 0x1680)%N || ((0x2000 <=? c)%N && (c <=? 0x200A)%N) ||
  (c =? 0x2028)%N || (c =? 0x2029)%N || (c =? 0x202F)%N || (c =? 0x205F)%N ||
  (c =? 0x3000)%N.

(** [char::is_whitespace]:
    [' ' | '\x09'..='\x0d' => true, c => c > '\x7f' && unicode::White_Space(c)]. *)
Definition char_is_whitespace (c : N) : bool :=
  (c =? 0x20)%N || ((0x09 <=? c)%N && (c <=? 0x0D)%N) || ((0x7F <? c)%N && white_space c).

(** An encoded character that is whitespace. *)
Definition is_ws_char (c : string) : bool :=
  match utf8_code c with Some v => char_is_whitespace v | None => false end.

(** The characters after the leading whitespace ones. *)
Fixpoint drop_ws (l : list string) : list string :=
  match l with
  | [] => []
  | c :: l' => if is_ws_char c then drop_ws l' else l
  end.

Definition str_concat (l : list string) : string := foldr String.append ""%string l.

(** [s.trim()]: the characters left once the whitespace ones are dropped
    from the front ([drop_ws]) and from the back ([drop_ws] on the
    reversed list). *)
Definition str_trim (s : string) : string :=
  str_concat (rev (drop_ws (rev (drop_ws (utf8_chars s))))).

Definition utf8_char_ok (c : string) : bool :=
  match utf8_code c with Some _ => true | None => false end.

(** [s] is valid UTF-8: every piece is the encoding of a scalar value.
    Every Rust [&str] is. *)
Definition utf8_valid (s : string) : bool := forallb utf8_char_ok (utf8_chars s).

(** [s] is made of whitespace characters only. *)
Definition ws_only (s : string) : bool := forallb is_ws_char (utf8_chars s).

Definition first_char (s : string) : option ascii :=
  match s with "" => None | String a _ => Some a end%string.

Fixpoint count_char (c : ascii) (s : string) : nat :=
  match s with
  | "" => 0
  | String a s' => (if Ascii.eqb a c then 1 else 0) + count_char c s'
  end%string.

(** ** Lemmas *)

Lemma starts_with_spec (pat s : string) :
  starts_with pat s = true ↔ ∃ suf, s = (pat +:+ suf)%string.
Proof.
  revert s; induction pat as [|a p IH]; intros [|b s]; simpl.
  - split; [by exists ""%string | done].
  - split; [by exists (String b s) | done].
  - split; [discriminate | intros [suf Hs]; discriminate].
  - rewrite andb_true_iff, IH. destruct (Ascii.eqb_spec a b) as [->|Hne].
    + split; [intros [_ [suf ->]]; by exists suf
             | intros [suf Hs]; injection Hs as ->; eauto].
    + split; [intros [[=] _] | intros [suf Hs]; injection Hs as ->; done].
Qed.

Lemma str_split_cons (c : ascii) (s : string) :
  ∃ t ts, str_split c s = t :: ts.
Proof.
  destruct s as [|a s]; simpl; [by eexists _, _|].
  destruct (Ascii.eqb a c); [by eexists _, _|].
  destruct (str_split c s); by eexists _, _.
Qed.

(** Splitting a piece free of [c] followed by [c]. *)
Lemma str_split_app_sep (c : ascii) (t r : string) :
  count_char c t = 0 →
  str_split c (t +:+ String c r)%string = t :: str_split c r.
Proof.
  induction t as [|a t IH]; simpl; intros Hc.
  - by rewrite Ascii.eqb_refl.
  - destruct (Ascii.eqb a c); [discriminate|]. rewrite IH by done. done.
Qed.

Lemma str_split_nosep (c : ascii) (t : string) :
  count_char c t = 0 → str_split c t = [t].
Proof.
  induction t as [|a t IH]; simpl; intros Hc; [done|].
  destruct (Ascii.eqb a c); [discriminate|]. rewrite IH by done. done.
Qed.

Lemma count_char_app (c : ascii) (s1 s2 : string) :
  count_char c (s1 +:+ s2) = count_char c s1 + count_char c s2.
Proof. induction s1 as [|a s1 IH]; simpl; [done|]. rewrite IH. lia. Qed.

Lemma str_contains_elim (pat s : string) :
  pat in_str s → ∃ pre suf, s = (pre +:+ pat +:+ suf)%string.
Proof.
  induction s as [|a s IH]; simpl; rewrite orb_true_iff, starts_with_spec.
  - intros [[suf Hs] | Hf]; [|discriminate]. exists ""%string, suf. exact Hs.
  - intros [[suf Hs] | (pre & suf & ->)%IH].
    + exists ""%string, suf. exact Hs.
    + exists (String a pre), suf. done.
Qed.

Lemma str_contains_eq (pat s : string) :
  str_contains pat s =
  starts_with pat s || match s with "" => false | String _ s' => str_contains pat s' end%string.
Proof. destruct s; reflexivity. Qed.

Lemma str_contains_intro (pre pat suf : string) :
  pat in_str (pre +:+ pat +:+ suf).
Proof.
  induction pre as [|a pre IH]; simpl_str.
  - rewrite str_contains_eq. apply orb_true_iff.
    left. apply starts_with_spec. by exists suf.
  - apply orb_true_iff. right. exact IH.
Qed.

Lemma length_str_split (c : ascii) (s : string) :
  length (str_split c s) = S (count_char c s).
Proof.
  induction s as [|a s IH]; [done|]. simpl.
  destruct (str_split_cons c s) as (t & ts & Hts). rewrite Hts in IH |- *.
  destruct (Ascii.eqb a c); simpl in *; lia.
Qed.

Lemma vec_index_lookup {A} (v : list A) (i : nat) (x : A) :
  v !! i = Some x → vec_index v i = Ret x.
Proof. unfold vec_index. by intros ->. Qed.

(** ** Lemmas on the UTF-8 pieces and [str_trim] *)

(** Induction on the length of a string. *)
Lemma string_len_ind (P : string → Prop) :
  (∀ s, (∀ t, String.length t < String.length s → P t) → P s) → ∀ s, P s.
Proof.
  intros H s. remember (String.length s) as n eqn:E. revert s E.
  induction n as [n IH] using (well_founded_induction lt_wf). intros s ->.
  apply H. intros t Ht. by eapply IH.
Qed.

Lemma str_concat_cons (c : string) (l : list string) :
  str_concat (c :: l) = (c +:+ str_concat l)%string.
Proof. reflexivity. Qed.

Lemma str_concat_app (l1 l2 : list string) :
  str_concat (l1 ++ l2) = (str_concat l1 +:+ str_concat l2)%string.
Proof.
  induction l1 as [|c l1 IH]; [done|]. rewrite <-app_comm_cons, !str_concat_cons, IH.
  apply string_app_assoc.
Qed.

(** The pieces of [s] put back together are [s]. *)
Lemma utf8_chars_concat (s : string) : str_concat (utf8_chars s) = s.
Proof.
  induction s as [[|a s1] IH] using string_len_ind; [done|]. simpl.
  destruct (utf8_len a) as [|[|[|[|[|k]]]]]; destruct s1 as [|b [|c [|d s4]]];
    rewrite str_concat_cons, IH by (simpl; lia); done.
Qed.

(** A one-byte encoding is an ASCII byte. *)
Lemma utf8_char_ok_single (a : ascii) :
  utf8_char_ok (String a "") = true → utf8_len a = 1.
Proof.
  unfold utf8_char_ok, utf8_code, utf8_len. simpl.
  destruct (N.ltb_spec (N_of_ascii a) 0x80); [|discriminate]. intros _.
  destruct (N.ltb_spec (N_of_ascii a) 0xC0); [done|lia].
Qed.

Lemma utf8_chars_cons (a : ascii) (s1 : string) :
  utf8_chars (String a s1) =
  match utf8_len a, s1 with
  | 2, String b s2 => String a (String b "") :: utf8_chars s2
  | 3, String b (String c s3) => String a (String b (String c "")) :: utf8_chars s3
  | 4, String b (String c (String d s4)) =>
      String a (String b (String c (String d ""))) :: utf8_chars s4
  | _, _ => String a "" :: utf8_chars s1
  end%string.
Proof. reflexivity. Qed.

Lemma utf8_chars_app (x y : string) :
  utf8_valid x = true → utf8_chars (x +:+ y) = utf8_chars x ++ utf8_chars y.
Proof.
  revert y. induction x as [[|a x1] IH] using string_len_ind; intros y Hv; [done|].
  unfold utf8_valid in Hv. autorewrite with quickview_rw.
  rewrite !utf8_chars_cons in *.
  destruct (utf8_len a) as [|[|[|[|[|k]]]]] eqn:Hl; destruct x1 as [|b [|c [|d x4]]];
    autorewrite with quickview_rw; cbn [forallb app] in Hv |- *;
    apply andb_true_iff in Hv as [Ha Hv];
    try (apply utf8_char_ok_single in Ha; congruence);
    f_equal; match goal with |- _ = utf8_chars ?t ++ _ => apply (IH t) end; simpl; auto with lia.
Qed.

Lemma drop_ws_app_ws (A B : list string) :
  forallb is_ws_char A = true → drop_ws (A ++ B) = drop_ws B.
Proof.
  induction A as [|c A IH]; [done|]. cbn [forallb app drop_ws].
  intros [-> HA]%andb_true_iff. by apply IH.
Qed.

Lemma drop_ws_app_l (A B : list string) :
  drop_ws A ≠ [] → drop_ws (A ++ B) = drop_ws A ++ B.
Proof.
  induction A as [|c A IH]; [done|]. cbn [app drop_ws].
  destruct (is_ws_char c); [exact IH | done].
Qed.

Lemma drop_ws_nil (A : list string) : drop_ws A = [] → forallb is_ws_char A = true.
Proof.
  induction A as [|c A IH]; [done|]. cbn [forallb drop_ws].
  destruct (is_ws_char c); [exact IH | done].
Qed.

Lemma forallb_rev {X} (f : X → bool) (l : list X) : forallb f (rev l) = forallb f l.
Proof.
  induction l as [|x l IH]; [done|]. simpl. rewrite forallb_app, IH. simpl.
  by rewrite andb_true_r, andb_comm.
Qed.

(** Trailing whitespace characters do not change what trimming keeps. *)
Lemma trim_chars_app_ws (P N : list string) :
  forallb is_ws_char N = true →
  rev (drop_ws (rev (drop_ws (P ++ N)))) = rev (drop_ws (rev (drop_ws P))).
Proof.
  intros HN. destruct (drop_ws P) as [|c D] eqn:HD.
  - rewrite drop_ws_app_ws by (by apply drop_ws_nil).
    by rewrite <-(app_nil_r N), drop_ws_app_ws.
  - rewrite drop_ws_app_l, HD by (by rewrite HD). rewrite rev_app_distr.
    rewrite drop_ws_app_ws by (by rewrite forallb_rev). done.
Qed.

(** No byte of a whitespace character is ['=']. *)
Lemma is_ws_char_no_eq (c : string) : is_ws_char c = true → count_char "=" c = 0.
Proof.
  unfold is_ws_char, utf8_code.
  destruct c as [|a [|b [|c0 [|d [|e r]]]]]; intros H; try discriminate; simpl;
  repeat match goal with
  | |- context [Ascii.eqb ?x "="%char] => destruct (Ascii.eqb_spec x "="%char) as [->|]
  end; try done; exfalso; revert H; unfold utf8_cont; cbn -[N.ltb N.leb];
  repeat case_match; done.
Qed.

Lemma count_char_concat (c : ascii) (l : list string) :
  Forall (λ x, count_char c x = 0) l → count_char c (str_concat l) = 0.
Proof.
  induction 1 as [|x l Hx _ IH]; [done|]. by rewrite str_concat_cons, count_char_app, Hx, IH.
Qed.

(** Whitespace holds no ['=']. *)
Lemma ws_only_no_eq (s : string) : ws_only s = true → count_char "=" s = 0.
Proof.
  intros H. rewrite <-(utf8_chars_concat s). apply count_char_concat, Forall_forall.
  intros x Hx%list_elem_of_In. apply is_ws_char_no_eq. by eapply forallb_forall in H.
Qed.

(** Whitespace after valid UTF-8 text does not change its trim. *)
Lemma str_trim_app_ws (s nl : string) :
  utf8_valid s = true → ws_only nl = true → str_trim (s +:+ nl) = str_trim s.
Proof.
  intros Hs Hn. unfold str_trim. rewrite utf8_chars_app by done.
  by rewrite trim_chars_app_ws.
Qed.
