(* ===== verification/Navigation.v ===== *)
(** * The port marker and the navigation script

    [main.rs] lines 84-106: on a standard-output line that contains
    ["tauri-server-port="], the router splits the line on ['='], takes
    token 1, trims it, and formats it into the script that sends the
    main window to the server's websocket ([format!] at lines 90-104).
    [extract_port] is lines 85-87, [navigation_script] the [format!]
    call; the two string constants are the raw literal's text before and
    after its one [{}] placeholder, with [{{] and [}}] unescaped.
    Theorems: [tokens[1]] never panics on a line with the marker, and
    the server's ["tauri-server-port=P"] line, whatever whitespace ends
    it, gives back [P]. *)

From Stdlib Require Import Ascii String.
From stdpp Require Import base list strings.
From S2P Require Import Prelude RustStr.

Open Scope quickview_scope.

Definition port_marker : string := "tauri-server-port=".
Definition ready_marker : string := "tauri-client-ready".

(** [let tokens: Vec<&str> = line.split("=").collect();
     let port_token = tokens[1].to_string();
     let port = port_token.trim();] *)
Definition extract_port (line : string) : outcome string :=
  let tokens := str_split "=" line in
  port_token ← vec_index tokens 1;
  Ret (str_trim port_token).

Definition navigation_script_head : string :=
"
                  window.location.replace(window.location.href + '?sessionURL=ws://localhost:".

Definition navigation_script_tail : string :=
"/ws');

                  // Ensure DPI override persists after navigation
                  window.addEventListener('load', function() {
                    Object.defineProperty(window, 'devicePixelRatio', {
                      get: function() { return 1; },
                      configurable: true
                    });
                    console.log('Post-navigation DPI override applied');
                  });
                  ".

(** [format!(r#"..."#, port)] *)
Definition navigation_script (port : string) : string :=
  navigation_script_head +:+ port +:+ navigation_script_tail.

(** A line end after the port: a no-break space (U+00A0, the bytes
    [C2 A0]), a carriage return and a line feed. *)
Definition nbsp_crlf : string :=
  String (ascii_of_nat 194) (String (ascii_of_nat 160) (String "013" (String "010" ""))).

(** ** Lemmas *)

Lemma port_marker_split : port_marker = ("tauri-server-port" +:+ "=")%string.
Proof. reflexivity. Qed.

(** The index [tokens[1]] is in range as soon as the line has an ['=']. *)
Lemma extract_port_ok (line : string) :
  1 ≤ count_char "=" line →
  ∃ t, str_split "=" line !! 1 = Some t ∧ extract_port line = Ret (str_trim t).
Proof.
  intros Hc. unfold extract_port.
  destruct (lookup_lt_is_Some_2 (str_split "=" line) 1) as [t Ht].
  { rewrite length_str_split. lia. }
  rewrite (vec_index_lookup _ _ _ Ht). eauto.
Qed.

(** On a line that contains the port marker, [tokens[1]] never panics. *)
Lemma extract_port_total (line : string) :
  port_marker in_str line → ∃ port, extract_port line = Ret port.
Proof.
  intros (pre & suf & ->)%str_contains_elim.
  destruct (extract_port_ok (pre +:+ port_marker +:+ suf)) as (t & _ & ->); [|eauto].
  rewrite !count_char_app. simpl. lia.
Qed.

(** The port is the trimmed text between the first ['='] of the line
    and the next one (or the end of the line). *)
Lemma extract_port_field (pre tok rest : string) :
  count_char "=" pre = 0 → count_char "=" tok = 0 →
  (rest = ""%string ∨ first_char rest = Some "="%char) →
  extract_port (pre +:+ String "=" (tok +:+ rest)) = Ret (str_trim tok).
Proof.
  intros Hpre Htok Hrest. unfold extract_port.
  rewrite str_split_app_sep by done.
  destruct Hrest as [-> | Hrest].
  - rewrite string_app_nil_r, str_split_nosep by done. reflexivity.
  - destruct rest as [|b r]; [discriminate|]. injection Hrest as ->.
    rewrite str_split_app_sep by done. reflexivity.
Qed.

(** ** Theorems *)



(** C17: on every line that contains the port marker, [tokens[1]] is in
    range (no index panic) and the port is that piece of
    [line.split("=")], trimmed. *)
Theorem extract_port_spec (line : string) :
  port_marker in_str line →
  ∃ t, str_split "=" line !! 1 = Some t ∧ extract_port line = Ret (str_trim t).
Proof.
  intros (pre & suf & ->)%str_contains_elim. apply extract_port_ok.
  rewrite !count_char_app. simpl. lia.
Qed.

Lemma extract_port_spec_witness :
  port_marker in_str "log tauri-server-port= 8080
" ∧
  str_split "=" "log tauri-server-port= 8080
" !! 1 = Some " 8080
" ∧
  extract_port "log tauri-server-port= 8080
" = Ret "8080".
Proof.
  assert (Hm : port_marker in_str "log tauri-server-port= 8080
") by reflexivity.
  split; [exact Hm|].
  destruct (extract_port_spec _ Hm) as (t & Ht & He).
  vm_compute in Ht. injection Ht as <-. split; [reflexivity|]. rewrite He. reflexivity.
Defined.

(** C16: round trip with the server: a line ["tauri-server-port=P"]
    (after text without ['='], followed by a line terminator or any other
    whitespace, Unicode whitespace included) yields exactly [P], when [P]
    is valid UTF-8 without ['='] and [P.trim()] is [P]. *)
Theorem extract_port_roundtrip (pre port nl : string) :
  count_char "=" pre = 0 → count_char "=" port = 0 →
  utf8_valid port = true → str_trim port = port → ws_only nl = true →
  extract_port (pre +:+ port_marker +:+ port +:+ nl) = Ret port.
Proof.
  intros Hpre Hport Hv Htrim Hnl.
  rewrite port_marker_split, <-!string_app_assoc, string_app_assoc.
  replace ("=" +:+ port +:+ nl)%string with (String "=" ((port +:+ nl) +:+ ""))
    by (by rewrite string_app_nil_r).
  rewrite extract_port_field.
  - by rewrite str_trim_app_ws, Htrim.
  - by rewrite count_char_app, Hpre.
  - by rewrite count_char_app, Hport, ws_only_no_eq.
  - by left.
Qed.

Lemma extract_port_roundtrip_witness :
  count_char "=" "log: " = 0 ∧ count_char "=" "8080" = 0 ∧ utf8_valid "8080" = true ∧
  str_trim "8080" = "8080" ∧ ws_only nbsp_crlf = true ∧
  extract_port ("log: " +:+ port_marker +:+ "8080" +:+ nbsp_crlf) = Ret "8080".
Proof.
  do 5 (split; [reflexivity|]).
  apply extract_port_roundtrip; reflexivity.
Defined.
