(* ===== verification/Sidecar.v ===== *)
(** * The process supervisor: the sidecar command and its event channel

    [main.rs] lines 69-77 build the command
    [Command::new_sidecar("trame").args([...]).envs(env)] and spawn it;
    [spawn] returns the receiving end [rx] of a channel of
    [CommandEvent]s that the router drains (lines 80-146).

    - [CommandEvent] and [TerminatedPayload] are Tauri's types with the
      constructors the router matches on; the enum is [non_exhaustive],
      which is why the router has a [_ => {}] arm: [OtherEvent] stands
      for any variant a later Tauri adds.
    - [Command] keeps what the builder calls set: program, arguments and
      the variables added to the inherited environment ([HashMap] as
      [gmap string string]).
    - [Channel] is the event channel: a FIFO queue and whether the
      sending side is still open.  Its capacity is a parameter ([None]
      for unbounded): a full channel makes the sender wait. *)

From Stdlib Require Import Ascii String ZArith.
From stdpp Require Import base list strings gmap.
From S2P Require Import Prelude.

Open Scope quickview_scope.

(** ** Events *)

Record TerminatedPayload : Type := {
  code : option Z;
  signal : option Z;
}.

Inductive CommandEvent : Type :=
| Stderr (line : string)
| Stdout (line : string)
| Error (err : string)
| Terminated (payload : TerminatedPayload)
| OtherEvent.

(** ** The command *)

Record Command : Type := {
  cmd_program : string;
  cmd_args : list string;
  cmd_env : gmap string string;
}.

(** [Command::args] appends to the argument list. *)
Definition command_args (args : list string) (c : Command) : Command :=
  {| cmd_program := cmd_program c; cmd_args := cmd_args c ++ args;
     cmd_env := cmd_env c |}.

(** [Command::envs] sets the map of variables given to the child.  The
    child still inherits the launcher's environment: Tauri's [spawn]
    passes the map to [std::process::Command::envs], which adds to the
    inherited variables (and overrides those of the same name); nothing
    here clears them. *)
Definition command_envs (env : gmap string string) (c : Command) : Command :=
  {| cmd_program := cmd_program c; cmd_args := cmd_args c; cmd_env := env |}.

Definition sidecar_name : string := "trame".

(** [let mut env = HashMap::new();
     env.insert("PYTHONUNBUFFERED".to_string(), "1".to_string());] *)
Definition server_env : gmap string string :=
  <["PYTHONUNBUFFERED" := "1"]> (∅ : gmap string string).

Definition server_args : list string :=
  ["--server"; "--port"; "0"; "--timeout"; "10"; "--user-home"].

(** [.args([...]).envs(env)] applied to the command [new_sidecar]
    returned. *)
Definition server_command (sidecar : Command) : Command :=
  command_envs server_env (command_args server_args sidecar).

(** ** The event channel *)

Record Channel : Type := {
  ch_queue : list CommandEvent;
  ch_open : bool;
}.

Definition ch_empty : Channel := {| ch_queue := []; ch_open := true |}.

(** The sender's [send]: [None] when the channel is closed or full (the
    sender then waits). *)
Definition ch_send (cap : option nat) (e : CommandEvent) (ch : Channel) : option Channel :=
  if ch_open ch then
    match cap with
    | Some n => if decide (length (ch_queue ch) < n)
                then Some {| ch_queue := ch_queue ch ++ [e]; ch_open := true |}
                else None
    | None => Some {| ch_queue := ch_queue ch ++ [e]; ch_open := true |}
    end
  else None.

(** Dropping the sender once the child is done. *)
Definition ch_close (ch : Channel) : Channel :=
  {| ch_queue := ch_queue ch; ch_open := false |}.

(** [rx.recv().await]: the oldest event, [None] once the channel is
    closed and drained, or [Pending] while it is open and empty. *)
Inductive RecvResult : Type :=
| Received (e : CommandEvent) (ch : Channel)
| Disconnected
| Pending.

Definition ch_recv (ch : Channel) : RecvResult :=
  match ch_queue ch with
  | e :: q => Received e {| ch_queue := q; ch_open := ch_open ch |}
  | [] => if ch_open ch then Pending else Disconnected
  end.

(** ** Lemmas *)

Lemma ch_send_Some (cap : option nat) e ch ch' :
  ch_send cap e ch = Some ch' →
  ch_open ch = true ∧ ch_queue ch' = ch_queue ch ++ [e] ∧ ch_open ch' = true.
Proof.
  unfold ch_send. destruct (ch_open ch); [|discriminate].
  destruct cap as [n|]; [case_decide; [|discriminate]|]; by intros [= <-].
Qed.

(** A send into a bounded channel found it below capacity. *)
Lemma ch_send_Some_room (n : nat) e ch ch' :
  ch_send (Some n) e ch = Some ch' → length (ch_queue ch) < n ∧ ch_queue ch' = ch_queue ch ++ [e].
Proof.
  intros Hs. pose proof (ch_send_Some _ _ _ _ Hs) as (_ & Hq & _). split; [|done].
  unfold ch_send in Hs. destruct (ch_open ch); [|discriminate].
  by case_decide; [|discriminate].
Qed.

Lemma ch_recv_Received ch e ch' :
  ch_recv ch = Received e ch' →
  ch_queue ch = e :: ch_queue ch' ∧ ch_open ch' = ch_open ch.
Proof.
  unfold ch_recv. destruct (ch_queue ch) as [|e0 q]; [by destruct (ch_open ch)|].
  by intros [= <- <-].
Qed.

Lemma ch_recv_Disconnected ch :
  ch_recv ch = Disconnected ↔ ch_queue ch = [] ∧ ch_open ch = false.
Proof.
  unfold ch_recv. destruct (ch_queue ch); [|naive_solver].
  destruct (ch_open ch); naive_solver.
Qed.
