(* ===== verification/Window.v ===== *)
(** * The window manager: the interface the program relies on

    The windows belong to Tauri, outside the repository.  [main.rs]
    calls [app.get_window(label)] (lines 15-16), [current_monitor()] and
    [scale_factor()] (lines 24-25), [eval] (lines 57, 106, 128),
    [set_size] (line 63), [close] (line 131) and [show] (line 132).

    - [WindowOps] states those calls on an abstract window state [W],
      each fallible call returning a [result] and the new state, plus two
      observations: whether a window is open and whether it is visible.
    - [WindowLaws] is what the program's correctness needs of Tauri:
      [eval] and [set_size] change neither observation, [close] and
      [show] act on their own window only, [show] of an open window
      succeeds and makes it visible, [close] of an open window succeeds
      and leaves it closed and hidden.  The laws say nothing of a call
      on a closed window.
    - [RefWindows] is a reference implementation on a [gmap] from labels
      to window records; it satisfies [WindowLaws] and gives the
      concrete states that the witnesses evaluate.  Like Tauri 1, whose
      window calls post a message to the event loop, it answers [Ok] to
      a call on a closed window and changes nothing. *)

From Stdlib Require Import Ascii String ZArith SpecFloat.
From stdpp Require Import base list strings gmap.
From S2P Require Import Prelude.

Open Scope quickview_scope.

Class WindowOps (W : Type) := {
  win_exists : W → string → bool;
  win_current_monitor : W → string → result (option spec_float) string;
  win_eval : string → string → W → result unit string * W;
  win_set_size : string → Z * Z → W → result unit string * W;
  win_close : string → W → result unit string * W;
  win_show : string → W → result unit string * W;
  win_is_open : W → string → bool;
  win_is_visible : W → string → bool;
}.

Definition win_obs {W} `{WindowOps W} (w : W) (l : string) : bool * bool :=
  (win_is_open w l, win_is_visible w l).

Class WindowLaws (W : Type) `{WindowOps W} := {
  eval_obs : ∀ l js w l', win_obs (win_eval l js w).2 l' = win_obs w l';
  set_size_obs : ∀ l sz w l', win_obs (win_set_size l sz w).2 l' = win_obs w l';
  close_frame : ∀ l w l', l' ≠ l → win_obs (win_close l w).2 l' = win_obs w l';
  show_frame : ∀ l w l', l' ≠ l → win_obs (win_show l w).2 l' = win_obs w l';
  close_ok : ∀ l w, win_is_open w l = true →
    (win_close l w).1 = Ok tt ∧ win_obs (win_close l w).2 l = (false, false);
  show_ok : ∀ l w, win_is_open w l = true →
    (win_show l w).1 = Ok tt ∧ win_obs (win_show l w).2 l = (true, true);
}.

(** ** A reference implementation *)

Record WinRec : Type := {
  wr_open : bool;
  wr_visible : bool;
  wr_scripts : list string;
  wr_size : option (Z * Z);
  wr_monitor : result (option spec_float) string;
}.

Abbreviation RefWindows := (gmap string WinRec).

Definition wr_set_visible (v : bool) (r : WinRec) : WinRec :=
  {| wr_open := wr_open r; wr_visible := v; wr_scripts := wr_scripts r;
     wr_size := wr_size r; wr_monitor := wr_monitor r |}.

Definition wr_closed (r : WinRec) : WinRec :=
  {| wr_open := false; wr_visible := false; wr_scripts := wr_scripts r;
     wr_size := wr_size r; wr_monitor := wr_monitor r |}.

Definition wr_add_script (js : string) (r : WinRec) : WinRec :=
  {| wr_open := wr_open r; wr_visible := wr_visible r;
     wr_scripts := wr_scripts r ++ [js]; wr_size := wr_size r;
     wr_monitor := wr_monitor r |}.

Definition wr_resize (sz : Z * Z) (r : WinRec) : WinRec :=
  {| wr_open := wr_open r; wr_visible := wr_visible r;
     wr_scripts := wr_scripts r; wr_size := Some sz; wr_monitor := wr_monitor r |}.

(** Apply [f] to an open window.  As in Tauri 1, a call is a message
    posted to the event loop: the call returns [Ok] at once, and the
    event loop drops a message for a window that is closed (or was
    never created), so nothing changes. *)
Definition ref_update (f : WinRec → WinRec) (l : string) (w : RefWindows) :
    result unit string * RefWindows :=
  match w !! l with
  | Some r => if wr_open r then (Ok tt, <[l := f r]> w) else (Ok tt, w)
  | None => (Ok tt, w)
  end.

#[export] Instance ref_window_ops : WindowOps RefWindows := {
  win_exists w l := bool_decide (is_Some (w !! l));
  win_current_monitor w l :=
    match w !! l with Some r => wr_monitor r | None => Err "window not found" end;
  win_eval l js := ref_update (wr_add_script js) l;
  win_set_size l sz := ref_update (wr_resize sz) l;
  win_close := ref_update wr_closed;
  win_show := ref_update (wr_set_visible true);
  win_is_open w l := match w !! l with Some r => wr_open r | None => false end;
  win_is_visible w l := match w !! l with Some r => wr_visible r | None => false end;
}.

(** The windows at launch, as the application's configuration creates
    them: both open, the splash window visible, the main window hidden. *)
Definition ref_window (visible : bool) : WinRec :=
  {| wr_open := true; wr_visible := visible; wr_scripts := [];
     wr_size := None; wr_monitor := Ok None |}.

Definition ref_launch_windows : RefWindows :=
  <["main" := ref_window false]> (<["splashscreen" := ref_window true]> ∅).

(** An update that keeps both observations of the record. *)
Lemma ref_update_obs (f : WinRec → WinRec) l w l' :
  (∀ r, wr_open (f r) = wr_open r ∧ wr_visible (f r) = wr_visible r) →
  win_obs (ref_update f l w).2 l' = win_obs w l'.
Proof.
  intros Hf. unfold ref_update, win_obs; simpl.
  destruct (w !! l) as [r|] eqn:Hl; [|done]. destruct (wr_open r); [|done]. simpl.
  destruct (decide (l = l')) as [<-|Hne].
  - rewrite lookup_insert_eq, Hl. by destruct (Hf r) as [-> ->].
  - by rewrite lookup_insert_ne.
Qed.

Lemma ref_update_frame (f : WinRec → WinRec) l w l' :
  l' ≠ l → win_obs (ref_update f l w).2 l' = win_obs w l'.
Proof.
  intros Hne. unfold ref_update, win_obs; simpl.
  destruct (w !! l) as [r|]; [|done]. destruct (wr_open r); [|done]. simpl.
  by rewrite lookup_insert_ne.
Qed.

Lemma ref_update_open (f : WinRec → WinRec) l w :
  win_is_open w l = true →
  ∃ r, w !! l = Some r ∧ wr_open r = true ∧ ref_update f l w = (Ok tt, <[l := f r]> w).
Proof.
  simpl. unfold ref_update. destruct (w !! l) as [r|]; [|discriminate].
  intros Hr. exists r. by rewrite Hr.
Qed.

#[export] Instance ref_window_laws : WindowLaws RefWindows.
Proof.
  split.
  - intros. apply ref_update_obs. done.
  - intros. apply ref_update_obs. done.
  - intros. by apply ref_update_frame.
  - intros. by apply ref_update_frame.
  - intros l w Ho. destruct (ref_update_open wr_closed l w Ho) as (r & _ & _ & Hu).
    simpl. rewrite Hu. split; [done|]. unfold win_obs.
    cbn [fst snd win_is_open win_is_visible ref_window_ops].
    by rewrite lookup_insert_eq.
  - intros l w Ho. destruct (ref_update_open (wr_set_visible true) l w Ho) as (r & _ & Hr & Hu).
    simpl. rewrite Hu. split; [done|]. unfold win_obs.
    cbn [fst snd win_is_open win_is_visible ref_window_ops].
    rewrite lookup_insert_eq. simpl. by rewrite Hr.
Qed.

(** The reference windows answer a [close] of a window that is not
    open as Tauri 1 does: [Ok], and no window changes. *)
Lemma ref_close_closed_ok (w : RefWindows) (l : string) :
  win_is_open w l = false →
  (win_close l w).1 = Ok tt ∧ ∀ l', win_obs (win_close l w).2 l' = win_obs w l'.
Proof.
  simpl. unfold ref_update. destruct (w !! l) as [r|]; [|done].
  by intros ->.
Qed.
