(* ===== verification/Router.v ===== *)
(** * The event router: the task that drains the sidecar's events

    [main.rs] lines 79-147: [tauri::async_runtime::spawn(async move {
    while let Some(event) = rx.recv().await { match event { ... } } })].

    - [World] is what the task reads and writes: the window state (through
      the [WindowOps] interface), the lines it printed, the time it slept,
      and the trace of the effects it performed, in order.
    - The primitives are the calls of the task: [println] ([println!]),
      [eval_ignore] ([let _ = main_window.eval(..)]), [sleep]
      ([task::sleep(Duration::from_secs(2)).await], counted in
      seconds), [close_unwrap] and [show_unwrap] ([.close().unwrap()],
      [.show().unwrap()], which panic when Tauri reports an error).
    - [handle_event] is the body of the [match] (lines 81-145), one
      branch per [CommandEvent] constructor; [router_loop] is the [while
      let] loop over the events the task receives, in order. *)

From Stdlib Require Import Ascii String ZArith SpecFloat.
From stdpp Require Import base list strings gmap pretty.
From S2P Require Import Prelude RustStr Navigation Sidecar Window.

Open Scope quickview_scope.

(** A line of standard output: text, or the scale factor [setup] prints
    on macOS (whose [f64] formatting is not modelled). *)
Inductive Output : Type :=
| Text (s : string)
| ScaleFactor (sf : spec_float).

Inductive Effect : Type :=
| EPrint (o : Output)
| EEval (label js : string)
| ESetSize (label : string) (sz : Z * Z)
| ESleep (secs : nat)
| EClose (label : string)
| EShow (label : string).

Record World (W : Type) : Type := {
  wd_win : W;
  wd_stdout : list Output;
  wd_clock : nat;
  wd_trace : list Effect;
}.
Arguments wd_win {W} _.
Arguments wd_stdout {W} _.
Arguments wd_clock {W} _.
Arguments wd_trace {W} _.

Definition splash_label : string := "splashscreen".
Definition main_label : string := "main".

(** Lines 114-127, evaluated on macOS before the main window is shown. *)
Definition final_dpi_script : string :=
"
                    // Final DPI override
                    Object.defineProperty(window, 'devicePixelRatio', {
                      get: function() { return 1; },
                      configurable: true
                    });

                    // Force a repaint
                    document.body.style.display = 'none';
                    document.body.offsetHeight; // Trigger reflow
                    document.body.style.display = '';

                    console.log('Final devicePixelRatio:', window.devicePixelRatio);
                  ".

(** [{:?}] of an [Option<i32>]. *)
Definition debug_option_i32 (o : option Z) : string :=
  match o with
  | Some z => "Some(" +:+ pretty z +:+ ")"
  | None => "None"
  end.

(** [{:?}] of the [TerminatedPayload] the arm binds as [code] (line 142):
    Tauri derives [Debug] for the struct, so the whole payload is
    printed, field names included. *)
Definition debug_terminated_payload (p : TerminatedPayload) : string :=
  "TerminatedPayload { code: " +:+ debug_option_i32 (code p) +:+
  ", signal: " +:+ debug_option_i32 (signal p) +:+ " }".

Section Primitives.
Context {W : Type} `{WindowOps W}.

Definition wd_with_win (w : W) (e : Effect) (wd : World W) : World W :=
  {| wd_win := w; wd_stdout := wd_stdout wd; wd_clock := wd_clock wd;
     wd_trace := wd_trace wd ++ [e] |}.

(** What performing one effect does to the world; the results of the
    window calls are dropped here ([close_unwrap] and [show_unwrap]
    inspect them first). *)
Definition exec_effect (e : Effect) (wd : World W) : World W :=
  match e with
  | EPrint o =>
      {| wd_win := wd_win wd; wd_stdout := wd_stdout wd ++ [o];
         wd_clock := wd_clock wd; wd_trace := wd_trace wd ++ [e] |}
  | EEval l js => wd_with_win (win_eval l js (wd_win wd)).2 e wd
  | ESetSize l sz => wd_with_win (win_set_size l sz (wd_win wd)).2 e wd
  | ESleep secs =>
      {| wd_win := wd_win wd; wd_stdout := wd_stdout wd;
         wd_clock := wd_clock wd + secs; wd_trace := wd_trace wd ++ [e] |}
  | EClose l => wd_with_win (win_close l (wd_win wd)).2 e wd
  | EShow l => wd_with_win (win_show l (wd_win wd)).2 e wd
  end.

Definition exec_effects (es : list Effect) (wd : World W) : World W :=
  fold_left (λ wd e, exec_effect e wd) es wd.

(** [println!] *)
Definition println (o : Output) : stm (World W) unit :=
  stm_modify (exec_effect (EPrint o)).

(** [let _ = window.eval(js);]: the result is ignored. *)
Definition eval_ignore (l js : string) : stm (World W) unit :=
  stm_modify (exec_effect (EEval l js)).

(** [let _ = window.set_size(sz);] *)
Definition set_size_ignore (l : string) (sz : Z * Z) : stm (World W) unit :=
  stm_modify (exec_effect (ESetSize l sz)).

(** [task::sleep(..).await] *)
Definition sleep (secs : nat) : stm (World W) unit :=
  stm_modify (exec_effect (ESleep secs)).

(** [window.close().unwrap()] *)
Definition close_unwrap (l : string) : stm (World W) unit := λ wd,
  _ ← unwrap (win_close l (wd_win wd)).1;
  Ret (tt, exec_effect (EClose l) wd).

(** [window.show().unwrap()] *)
Definition show_unwrap (l : string) : stm (World W) unit := λ wd,
  _ ← unwrap (win_show l (wd_win wd)).1;
  Ret (tt, exec_effect (EShow l) wd).
End Primitives.

Section Router.
Context {W : Type} `{WindowOps W}.
Variable os : target_os.

(** Lines 82-134: a line of the server's standard output. *)
Definition handle_stdout (line : string) : stm (World W) unit :=
  println (Text ("Stdout: " +:+ line)) ;;
  (if str_contains port_marker line then
     port ← stm_lift (extract_port line);
     eval_ignore main_label (navigation_script port)
   else mret ()) ;;
  (if str_contains ready_marker line then
     sleep 2 ;;
     (if decide (os = MacOS) then eval_ignore main_label final_dpi_script
      else mret ()) ;;
     close_unwrap splash_label ;;
     show_unwrap main_label
   else mret ()).

(** Lines 81-145. *)
Definition handle_event (e : CommandEvent) : stm (World W) unit :=
  match e with
  | Stdout line => handle_stdout line
  | Stderr line => println (Text ("Stderr: " +:+ line))
  | Error err => println (Text ("[Trame error] " +:+ err))
  | Terminated p => println (Text ("[Trame exited] with code " +:+ debug_terminated_payload p))
  | OtherEvent => mret ()
  end.

(** Line 80: the events the task receives, handled in arrival order. *)
Fixpoint router_loop (es : list CommandEvent) : stm (World W) unit :=
  match es with
  | [] => mret ()
  | e :: es' => handle_event e ;; router_loop es'
  end.
End Router.

(** ** The router's specification: the effects each event produces

    [event_effects os e] is the list of effects, in order, that handling
    [e] performs when no [unwrap] panics; [event_log_line e] is the line
    printed for [e]. *)

Definition is_ready_event (e : CommandEvent) : bool :=
  match e with Stdout line => str_contains ready_marker line | _ => false end.

Definition is_marker_event (e : CommandEvent) : bool :=
  match e with
  | Stdout line => str_contains port_marker line || str_contains ready_marker line
  | _ => false
  end.

Definition event_log_line (e : CommandEvent) : option string :=
  match e with
  | Stdout line => Some ("Stdout: " +:+ line)
  | Stderr line => Some ("Stderr: " +:+ line)
  | Error err => Some ("[Trame error] " +:+ err)
  | Terminated p => Some ("[Trame exited] with code " +:+ debug_terminated_payload p)
  | OtherEvent => None
  end.

Definition port_effects (line : string) : list Effect :=
  if str_contains port_marker line then
    match extract_port line with
    | Ret port => [EEval main_label (navigation_script port)]
    | Panic _ => []
    end
  else [].

Definition ready_effects (os : target_os) (line : string) : list Effect :=
  if str_contains ready_marker line then
    [ESleep 2] ++
    (if decide (os = MacOS) then [EEval main_label final_dpi_script] else []) ++
    [EClose splash_label; EShow main_label]
  else [].

Definition event_effects (os : target_os) (e : CommandEvent) : list Effect :=
  match e with
  | Stdout line =>
      EPrint (Text ("Stdout: " +:+ line)) :: port_effects line ++ ready_effects os line
  | _ =>
      match event_log_line e with Some s => [EPrint (Text s)] | None => [] end
  end.

(** Effects that touch no window's observations. *)
Definition passive (e : Effect) : bool :=
  match e with EClose _ | EShow _ => false | _ => true end.

(** The seconds slept and the lines printed by a list of effects. *)
Definition sleep_total (effs : list Effect) : nat :=
  foldr (λ e n, match e with ESleep ms => ms + n | _ => n end) 0 effs.

Definition printed (effs : list Effect) : list Output :=
  omap (λ e, match e with EPrint o => Some o | _ => None end) effs.

(** How an effect changes the observation [(open, visible)] of window
    [l], as the window laws promise. *)
Definition effect_obs (e : Effect) (l : string) (o : bool * bool) : bool * bool :=
  match e with
  | EClose l' => if decide (l = l') then (false, false) else o
  | EShow l' => if decide (l = l') then (true, true) else o
  | _ => o
  end.

Definition effects_obs (effs : list Effect) (l : string) (o : bool * bool) : bool * bool :=
  fold_left (λ o e, effect_obs e l o) effs o.

Section Enabled.
Context {W : Type} `{WindowOps W}.

(** Every [close] and [show] finds its window open when it runs. *)
Fixpoint effects_ok (effs : list Effect) (wd : World W) : Prop :=
  match effs with
  | [] => True
  | e :: effs' =>
      match e with
      | EClose l | EShow l => win_is_open (wd_win wd) l = true
      | _ => True
      end ∧ effects_ok effs' (exec_effect e wd)
  end.
End Enabled.

(** The router's world when the task starts, on the reference windows. *)
Definition launch_world : World RefWindows :=
  {| wd_win := ref_launch_windows; wd_stdout := []; wd_clock := 0; wd_trace := [] |}.

(** ** Lemmas on the effect interpreter *)

Section EffectLemmas.
Context {W : Type} `{WindowOps W}.

Lemma exec_effects_app (a b : list Effect) (wd : World W) :
  exec_effects (a ++ b) wd = exec_effects b (exec_effects a wd).
Proof. apply fold_left_app. Qed.

Lemma exec_effects_trace (effs : list Effect) (wd : World W) :
  wd_trace (exec_effects effs wd) = wd_trace wd ++ effs.
Proof.
  revert wd; induction effs as [|e effs IH]; intros wd; simpl; [by rewrite app_nil_r|].
  rewrite IH. destruct e; simpl; by rewrite <-app_assoc.
Qed.

Lemma exec_effects_clock (effs : list Effect) (wd : World W) :
  wd_clock (exec_effects effs wd) = wd_clock wd + sleep_total effs.
Proof.
  revert wd; induction effs as [|e effs IH]; intros wd; simpl; [lia|].
  rewrite IH. destruct e; simpl; lia.
Qed.

Lemma exec_effects_stdout (effs : list Effect) (wd : World W) :
  wd_stdout (exec_effects effs wd) = wd_stdout wd ++ printed effs.
Proof.
  revert wd; induction effs as [|e effs IH]; intros wd; simpl; [by rewrite app_nil_r|].
  rewrite IH. destruct e; simpl; by rewrite <-?app_assoc.
Qed.

Lemma effects_ok_app (a b : list Effect) (wd : World W) :
  effects_ok (a ++ b) wd ↔ effects_ok a wd ∧ effects_ok b (exec_effects a wd).
Proof.
  revert wd; induction a as [|e a IH]; intros wd; simpl; [tauto|].
  rewrite IH. tauto.
Qed.

Lemma passive_effects_ok (effs : list Effect) (wd : World W) :
  Forall (λ e, passive e = true) effs → effects_ok effs wd.
Proof.
  intros Hp. revert wd; induction Hp as [|e effs He Hp IH]; intros wd; simpl; [done|].
  split; [|apply IH]. by destruct e.
Qed.

Lemma effects_obs_passive (effs : list Effect) l o :
  Forall (λ e, passive e = true) effs → effects_obs effs l o = o.
Proof.
  intros Hp. revert o; induction Hp as [|e effs He Hp IH]; intros o; simpl; [done|].
  rewrite IH. by destruct e.
Qed.

Lemma effects_obs_app (a b : list Effect) l o :
  effects_obs (a ++ b) l o = effects_obs b l (effects_obs a l o).
Proof. apply fold_left_app. Qed.

Context `{!WindowLaws W}.

Lemma exec_effect_obs (e : Effect) (wd : World W) l :
  match e with EClose l' | EShow l' => win_is_open (wd_win wd) l' = true | _ => True end →
  win_obs (wd_win (exec_effect e wd)) l = effect_obs e l (win_obs (wd_win wd) l).
Proof.
  destruct e as [o|l' js|l' sz|ms|l'|l']; simpl; intros Hen; try done.
  - apply eval_obs.
  - apply set_size_obs.
  - case_decide as Hl; [subst; apply close_ok, Hen | by apply close_frame].
  - case_decide as Hl; [subst; apply show_ok, Hen | by apply show_frame].
Qed.

Lemma exec_effects_obs (effs : list Effect) (wd : World W) l :
  effects_ok effs wd →
  win_obs (wd_win (exec_effects effs wd)) l = effects_obs effs l (win_obs (wd_win wd) l).
Proof.
  revert wd; induction effs as [|e effs IH]; intros wd; simpl; [done|].
  intros [Hen Hok]. rewrite IH by done. f_equal. by apply exec_effect_obs.
Qed.
End EffectLemmas.

(** ** Lemmas on the handler *)

(** Unfold the handler and the state monad down to the window calls. *)
Ltac unfold_router :=
  cbv [handle_event handle_stdout mbind stm_bind mret stm_ret println
       eval_ignore sleep stm_modify stm_lift close_unwrap show_unwrap
       outcome_bind unwrap event_effects port_effects ready_effects].

(** Rewrite the result of a [close] or [show] of a window known open. *)
Ltac use_window_laws :=
  repeat match goal with
  | Hen : win_is_open ?w ?l = true |- context [(win_close ?l ?w).1] =>
      rewrite (proj1 (close_ok l w Hen)); simpl
  | Hen : win_is_open ?w ?l = true |- context [(win_show ?l ?w).1] =>
      rewrite (proj1 (show_ok l w Hen)); simpl
  end.

Section HandlerLemmas.
Context {W : Type} `{WindowOps W}.
Variable os : target_os.

(** Whenever the handler returns, it performed [event_effects]. *)
Lemma handle_event_Ret (e : CommandEvent) (wd wd' : World W) u :
  handle_event os e wd = Ret (u, wd') → wd' = exec_effects (event_effects os e) wd.
Proof.
  destruct e as [line|line|err|p|]; unfold_router; simpl;
    [| | | | by intros; simplify_eq].
  - intros; simplify_eq; reflexivity.
  - destruct (str_contains port_marker line); [destruct (extract_port line) as [port|m]|];
      destruct (str_contains ready_marker line); simpl;
      repeat case_match; intros; simplify_eq; reflexivity.
  - intros; simplify_eq; reflexivity.
  - intros; simplify_eq; reflexivity.
Qed.

Lemma router_loop_Ret (es : list CommandEvent) (wd wd' : World W) u :
  router_loop os es wd = Ret (u, wd') →
  wd' = exec_effects (flat_map (event_effects os) es) wd.
Proof.
  revert wd; induction es as [|e es IH]; intros wd; simpl.
  - by intros [= _ <-].
  - intros (u1 & wd1 & He & Hl)%stm_bind_Ret_inv.
    rewrite exec_effects_app, <-(handle_event_Ret _ _ _ _ He). by apply IH.
Qed.

Context `{!WindowLaws W}.

(** When every [close] and [show] finds its window open, the handler
    returns and performs [event_effects]. *)
Lemma handle_event_exec (e : CommandEvent) (wd : World W) :
  effects_ok (event_effects os e) wd →
  handle_event os e wd = Ret (tt, exec_effects (event_effects os e) wd).
Proof.
  destruct e as [line|line|err|p|]; unfold_router; simpl; try done.
  destruct (str_contains port_marker line) eqn:Hp;
    [destruct (extract_port line) as [port|m] eqn:Hx|];
    destruct (str_contains ready_marker line); simpl;
    try (destruct (extract_port_total line Hp) as [q Hq]; congruence);
    try done;
    case_decide; simpl; intros; destruct_and?; use_window_laws; done.
Qed.
End HandlerLemmas.

(** ** Lemmas on the loop *)

Lemma port_effects_passive (line : string) :
  Forall (λ e, passive e = true) (port_effects line).
Proof.
  unfold port_effects. destruct (str_contains _ _); [|done].
  destruct (extract_port line); by repeat constructor.
Qed.

Lemma non_ready_passive (os : target_os) (e : CommandEvent) :
  is_ready_event e = false → Forall (λ e, passive e = true) (event_effects os e).
Proof.
  destruct e as [line|line|err|p|]; simpl; intros Hr; try by repeat constructor.
  constructor; [done|]. unfold ready_effects. rewrite Hr, app_nil_r.
  apply port_effects_passive.
Qed.

Lemma non_ready_loop_passive (os : target_os) (es : list CommandEvent) :
  Forall (λ e, is_ready_event e = false) es →
  Forall (λ e, passive e = true) (flat_map (event_effects os) es).
Proof.
  induction 1; simpl; [done|]. apply Forall_app. split; [by apply non_ready_passive|done].
Qed.

Lemma sleep_total_app (a b : list Effect) :
  sleep_total (a ++ b) = sleep_total a + sleep_total b.
Proof. induction a as [|e a IH]; simpl; [done|]. rewrite IH. destruct e; lia. Qed.

Lemma sleep_total_passive_print (line : string) :
  sleep_total (port_effects line) = 0.
Proof.
  unfold port_effects. destruct (str_contains _ _); [|done].
  by destruct (extract_port line).
Qed.

Lemma event_sleep (os : target_os) (e : CommandEvent) :
  sleep_total (event_effects os e) = if is_ready_event e then 2 else 0.
Proof.
  destruct e as [line|line|err|p|]; try done. simpl.
  rewrite sleep_total_app, sleep_total_passive_print. unfold ready_effects.
  destruct (str_contains ready_marker line); [|done].
  rewrite !sleep_total_app. case_decide; simpl; lia.
Qed.

Lemma printed_app (a b : list Effect) : printed (a ++ b) = printed a ++ printed b.
Proof. apply omap_app. Qed.

Lemma event_printed (os : target_os) (e : CommandEvent) :
  printed (event_effects os e) = Text <$> option_list (event_log_line e).
Proof.
  destruct e as [line|line|err|p|]; try done. simpl. f_equal.
  rewrite printed_app. unfold port_effects, ready_effects.
  destruct (str_contains port_marker line); [destruct (extract_port line)|];
    destruct (str_contains ready_marker line); try done; by case_decide.
Qed.

(** The loop sleeps two seconds per ready line and prints one line per
    event that has one, in order. *)
Lemma loop_sleep_total (os : target_os) (es : list CommandEvent) :
  sleep_total (flat_map (event_effects os) es) =
  2 * length (filter (λ e, is_ready_event e = true) es).
Proof.
  induction es as [|e es IH]; [done|]. simpl.
  rewrite sleep_total_app, IH, event_sleep, filter_cons.
  destruct (is_ready_event e); simpl; lia.
Qed.

Lemma loop_printed (os : target_os) (es : list CommandEvent) :
  printed (flat_map (event_effects os) es) = Text <$> omap event_log_line es.
Proof.
  induction es as [|e es IH]; [done|]. simpl.
  rewrite printed_app, IH, event_printed. by destruct (event_log_line e).
Qed.

Section ReadyLemmas.
Context {W : Type} `{WindowOps W} `{!WindowLaws W}.
Variable os : target_os.

Lemma splash_main_ne : splash_label ≠ main_label.
Proof. discriminate. Qed.

(** A ready line's effects run with both windows open: the splash
    window ends closed and hidden, the main window open and visible,
    every other window untouched. *)
Lemma ready_event_ok (line : string) (wd : World W) :
  ready_marker in_str line →
  win_is_open (wd_win wd) splash_label = true →
  win_is_open (wd_win wd) main_label = true →
  effects_ok (event_effects os (Stdout line)) wd ∧
  ∀ l, effects_obs (event_effects os (Stdout line)) l (win_obs (wd_win wd) l) =
       if decide (l = main_label) then (true, true)
       else if decide (l = splash_label) then (false, false)
       else win_obs (wd_win wd) l.
Proof.
  intros Hr Hs Hm.
  change (event_effects os (Stdout line)) with
    (EPrint (Text ("Stdout: " +:+ line)) :: port_effects line ++ ready_effects os line).
  unfold ready_effects. rewrite Hr.
  set (pre := EPrint (Text ("Stdout: " +:+ line)) :: port_effects line ++ [ESleep 2] ++
              (if decide (os = MacOS) then [EEval main_label final_dpi_script] else [])).
  assert (Hpre : Forall (λ e, passive e = true) pre).
  { constructor; [done|]. apply Forall_app; split; [apply port_effects_passive|].
    constructor; [done|]. case_decide; by repeat constructor. }
  replace (EPrint (Text ("Stdout: " +:+ line)) :: port_effects line ++ _)
    with (pre ++ [EClose splash_label; EShow main_label])
    by (unfold pre; simpl; by rewrite <-?app_assoc).
  assert (Hobs : ∀ l, win_obs (wd_win (exec_effects pre wd)) l = win_obs (wd_win wd) l).
  { intros l. rewrite exec_effects_obs by (by apply passive_effects_ok).
    by apply effects_obs_passive. }
  assert (Hs' : win_is_open (wd_win (exec_effects pre wd)) splash_label = true).
  { pose proof (Hobs splash_label) as E. unfold win_obs in E. congruence. }
  assert (Hm' : win_is_open (wd_win (exec_effects pre wd)) main_label = true).
  { pose proof (Hobs main_label) as E. unfold win_obs in E. congruence. }
  assert (Hm'' : win_is_open (wd_win (exec_effect (EClose splash_label) (exec_effects pre wd)))
                   main_label = true).
  { pose proof (exec_effect_obs (EClose splash_label) (exec_effects pre wd) main_label Hs')
      as E. unfold effect_obs in E. rewrite decide_False in E by discriminate.
    rewrite Hobs in E. unfold win_obs in E. congruence. }
  split.
  - apply effects_ok_app. split; [by apply passive_effects_ok|].
    cbn [effects_ok]. split; [exact Hs'|]. split; [exact Hm''|done].
  - intros l. rewrite effects_obs_app, (effects_obs_passive pre) by done. simpl.
    repeat case_decide; subst; done.
Qed.
End ReadyLemmas.

Section LoopLemmas.
Context {W : Type} `{WindowOps W} `{!WindowLaws W}.
Variable os : target_os.

Lemma router_loop_exec (es : list CommandEvent) (wd : World W) :
  effects_ok (flat_map (event_effects os) es) wd →
  router_loop os es wd = Ret (tt, exec_effects (flat_map (event_effects os) es) wd).
Proof.
  revert wd; induction es as [|e es IH]; intros wd; simpl; [done|].
  intros [He Hes]%effects_ok_app.
  rewrite (stm_bind_Ret _ _ _ tt (exec_effects (event_effects os e) wd))
    by (by apply handle_event_exec).
  rewrite exec_effects_app. by apply IH.
Qed.

(** Events without the ready marker run without touching any window. *)
Lemma router_loop_passive (es : list CommandEvent) (wd : World W) :
  Forall (λ e, is_ready_event e = false) es →
  router_loop os es wd = Ret (tt, exec_effects (flat_map (event_effects os) es) wd) ∧
  ∀ l, win_obs (wd_win (exec_effects (flat_map (event_effects os) es) wd)) l =
       win_obs (wd_win wd) l.
Proof.
  intros Hn. pose proof (non_ready_loop_passive os es Hn) as Hp.
  split; [by apply router_loop_exec, passive_effects_ok|].
  intros l. rewrite exec_effects_obs by (by apply passive_effects_ok).
  by apply effects_obs_passive.
Qed.

Lemma router_loop_app (es1 es2 : list CommandEvent) (wd : World W) :
  router_loop os (es1 ++ es2) wd = (router_loop os es1 ≫= λ _, router_loop os es2) wd.
Proof.
  revert wd; induction es1 as [|e es1 IH]; intros wd; [done|]. simpl.
  unfold mbind, stm_bind. destruct (handle_event os e wd) as [[[] wd1]|m]; [|done].
  apply IH.
Qed.
(** A run with exactly one ready line, started with both windows open,
    has all its [close] and [show] enabled and ends with the main
    window shown and the splash window closed. *)
Lemma ready_run_ok (es1 es2 : list CommandEvent) (line : string) (wd : World W) :
  Forall (λ e, is_ready_event e = false) es1 →
  Forall (λ e, is_ready_event e = false) es2 →
  ready_marker in_str line →
  win_is_open (wd_win wd) splash_label = true →
  win_is_open (wd_win wd) main_label = true →
  effects_ok (flat_map (event_effects os) (es1 ++ Stdout line :: es2)) wd ∧
  win_obs (wd_win (exec_effects (flat_map (event_effects os) (es1 ++ Stdout line :: es2)) wd))
    main_label = (true, true) ∧
  win_obs (wd_win (exec_effects (flat_map (event_effects os) (es1 ++ Stdout line :: es2)) wd))
    splash_label = (false, false).
Proof.
  intros H1 H2 Hr Hs Hm.
  pose proof (non_ready_loop_passive os es1 H1) as Hp1.
  pose proof (non_ready_loop_passive os es2 H2) as Hp2.
  set (wd1 := exec_effects (flat_map (event_effects os) es1) wd).
  assert (Ho1 : ∀ l, win_obs (wd_win wd1) l = win_obs (wd_win wd) l).
  { intros l. unfold wd1. rewrite exec_effects_obs by (by apply passive_effects_ok).
    by apply effects_obs_passive. }
  assert (Hs1 : win_is_open (wd_win wd1) splash_label = true).
  { pose proof (Ho1 splash_label) as E. unfold win_obs in E. congruence. }
  assert (Hm1 : win_is_open (wd_win wd1) main_label = true).
  { pose proof (Ho1 main_label) as E. unfold win_obs in E. congruence. }
  destruct (ready_event_ok os line wd1 Hr Hs1 Hm1) as [Hok Hobs].
  rewrite flat_map_app. cbn [flat_map]. rewrite !exec_effects_app.
  fold wd1. set (wd2 := exec_effects (event_effects os (Stdout line)) wd1).
  assert (Hok12 : effects_ok (flat_map (event_effects os) es1 ++
                    event_effects os (Stdout line) ++ flat_map (event_effects os) es2) wd).
  { apply effects_ok_app. split; [by apply passive_effects_ok|].
    apply effects_ok_app. split; [done|]. by apply passive_effects_ok. }
  split; [done|].
  rewrite !(exec_effects_obs (flat_map (event_effects os) es2)) by (by apply passive_effects_ok).
  rewrite !(effects_obs_passive (flat_map (event_effects os) es2)) by done.
  unfold wd2. rewrite !exec_effects_obs by done. rewrite !Hobs.
  split; [done|]. by rewrite decide_False by discriminate.
Qed.
End LoopLemmas.

(** ** Theorems *)

Section RouterTheorems.
Context {W : Type} `{WindowOps W} `{!WindowLaws W}.
Variable os : target_os.

(** C5: refinement of the router task by its effect specification:
    whenever the [while let] loop returns, the world is the one obtained
    by performing [event_effects] of each received event in order; and
    when every [close] and [show] finds its window open, the loop does
    return. *)
Theorem router_loop_refines (es : list CommandEvent) (wd : World W) :
  (∀ u wd', router_loop os es wd = Ret (u, wd') →
            wd' = exec_effects (flat_map (event_effects os) es) wd) ∧
  (effects_ok (flat_map (event_effects os) es) wd →
   router_loop os es wd = Ret (tt, exec_effects (flat_map (event_effects os) es) wd)).
Proof.
  split; [intros u wd'; apply router_loop_Ret|apply router_loop_exec].
Qed.

(** C7: if the server never prints the ready marker, the main window
    never appears: the loop returns (no [unwrap] is reached) and no
    window's open or visible state changes. *)
Theorem router_no_ready_no_show (es : list CommandEvent) (wd : World W) :
  Forall (λ e, is_ready_event e = false) es →
  ∃ wd', router_loop os es wd = Ret (tt, wd') ∧
         ∀ l, win_obs (wd_win wd') l = win_obs (wd_win wd) l.
Proof.
  intros Hn. destruct (router_loop_passive os es wd Hn) as [Hl Ho]. eauto.
Qed.

(** C6: once the ready line arrives (and no other), with both windows
    open at the start, the loop returns with the splash window closed
    and hidden and the main window open and visible, whatever events
    come before and after. *)
Theorem router_ready_shows_main (es1 es2 : list CommandEvent) (line : string) (wd : World W) :
  Forall (λ e, is_ready_event e = false) es1 →
  Forall (λ e, is_ready_event e = false) es2 →
  ready_marker in_str line →
  win_is_open (wd_win wd) splash_label = true →
  win_is_open (wd_win wd) main_label = true →
  ∃ wd', router_loop os (es1 ++ Stdout line :: es2) wd = Ret (tt, wd') ∧
         win_obs (wd_win wd') main_label = (true, true) ∧
         win_obs (wd_win wd') splash_label = (false, false).
Proof.
  intros H1 H2 Hr Hs Hm.
  destruct (ready_run_ok os es1 es2 line wd H1 H2 Hr Hs Hm) as (Hok & Hmain & Hsplash).
  eexists. split; [by apply router_loop_exec|]. done.
Qed.
End RouterTheorems.

Section HandlerTheorems.
Context {W : Type} `{WindowOps W} `{!WindowLaws W}.
Variable os : target_os.

(** C19: an event that is not a marker line (any [Stderr], [Error],
    [Terminated], other event, or a [Stdout] line without either
    marker) is only printed: the handler returns, the line is appended
    to standard output, nothing else changes. *)
Theorem handle_non_marker (e : CommandEvent) (wd : World W) :
  is_marker_event e = false →
  handle_event os e wd =
    Ret (tt, match event_log_line e with
             | Some s => exec_effect (EPrint (Text s)) wd
             | None => wd
             end).
Proof.
  intros Hm.
  assert (Hok : effects_ok (event_effects os e) wd).
  { apply passive_effects_ok, non_ready_passive.
    destruct e as [line|line|err|p|]; try done. simpl in *.
    by apply orb_false_iff in Hm as [_ ->]. }
  rewrite (handle_event_exec os e wd Hok).
  destruct e as [line|line|err|p|]; try done.
  simpl in Hm. apply orb_false_iff in Hm as [Hp Hr]. simpl.
  unfold port_effects, ready_effects. by rewrite Hp, Hr.
Qed.

(** C18: a line with the port marker and not the ready marker never
    panics: it is printed, then the navigation script for the port
    [extract_port] finds is evaluated in the main window. *)
Theorem handle_port_line (line : string) (wd : World W) :
  port_marker in_str line → str_contains ready_marker line = false →
  ∃ port, extract_port line = Ret port ∧
    handle_event os (Stdout line) wd =
      Ret (tt, exec_effects [EPrint (Text ("Stdout: " +:+ line));
                             EEval main_label (navigation_script port)] wd).
Proof.
  intros Hp Hr. destruct (extract_port_total line Hp) as [port Hx].
  exists port. split; [done|].
  assert (Heff : event_effects os (Stdout line) =
                 [EPrint (Text ("Stdout: " +:+ line)); EEval main_label (navigation_script port)]).
  { simpl. unfold port_effects, ready_effects. by rewrite Hp, Hx, Hr. }
  assert (Hok : effects_ok (event_effects os (Stdout line)) wd).
  { rewrite Heff. apply passive_effects_ok. by repeat constructor. }
  rewrite (handle_event_exec os (Stdout line) wd Hok). by rewrite Heff.
Qed.

(** C15: a ready line, with both windows open, performs in this order:
    print the line, the navigation script if the line also has the port
    marker, a 2 s sleep, the final DPI script on macOS, close the
    splash window, show the main window; it returns with the main window
    visible and the splash window closed. *)
Theorem handle_ready_line (line : string) (wd : World W) :
  ready_marker in_str line →
  win_is_open (wd_win wd) splash_label = true →
  win_is_open (wd_win wd) main_label = true →
  ∃ wd', handle_event os (Stdout line) wd = Ret (tt, wd') ∧
    wd_trace wd' = wd_trace wd ++ [EPrint (Text ("Stdout: " +:+ line))] ++
      port_effects line ++ [ESleep 2] ++
      (if decide (os = MacOS) then [EEval main_label final_dpi_script] else []) ++
      [EClose splash_label; EShow main_label] ∧
    wd_clock wd' = wd_clock wd + 2 ∧
    win_obs (wd_win wd') main_label = (true, true) ∧
    win_obs (wd_win wd') splash_label = (false, false).
Proof.
  intros Hr Hs Hm. destruct (ready_event_ok os line wd Hr Hs Hm) as [Hok Hobs].
  eexists. split; [exact (handle_event_exec os (Stdout line) wd Hok)|].
  rewrite exec_effects_trace, exec_effects_clock, !exec_effects_obs by done.
  rewrite !Hobs, event_sleep. simpl. rewrite Hr. unfold ready_effects. rewrite Hr.
  split; [done|]. split; [done|]. split; [done|]. try (rewrite decide_False by discriminate); done.
Qed.

(** C20: every run of the loop that returns slept exactly 2 s per
    ready line received and printed exactly one line per event, in
    order (none for an unknown event). *)
Theorem router_clock_stdout (es : list CommandEvent) (wd wd' : World W) u :
  router_loop os es wd = Ret (u, wd') →
  wd_clock wd' = wd_clock wd + 2 * length (filter (λ e, is_ready_event e = true) es) ∧
  wd_stdout wd' = wd_stdout wd ++ (Text <$> omap event_log_line es).
Proof.
  intros Hl. apply router_loop_Ret in Hl as ->.
  by rewrite exec_effects_clock, exec_effects_stdout, loop_sleep_total, loop_printed.
Qed.
End HandlerTheorems.

(** ** Witnesses *)

Lemma router_loop_refines_witness :
  effects_ok (flat_map (event_effects Linux)
    [Stdout "tauri-server-port=8080"; Stdout "tauri-client-ready"]) launch_world ∧
  router_loop Linux [Stdout "tauri-server-port=8080"; Stdout "tauri-client-ready"] launch_world =
    Ret (tt, exec_effects (flat_map (event_effects Linux)
      [Stdout "tauri-server-port=8080"; Stdout "tauri-client-ready"]) launch_world).
Proof.
  assert (Hok : effects_ok (flat_map (event_effects Linux)
    [Stdout "tauri-server-port=8080"; Stdout "tauri-client-ready"]) launch_world)
    by (vm_compute; tauto).
  split; [exact Hok|]. exact (proj2 (router_loop_refines Linux _ launch_world) Hok).
Defined.

Lemma router_no_ready_no_show_witness :
  Forall (λ e, is_ready_event e = false) [Stderr "warn"; Stdout "tauri-server-port=8080"] ∧
  ∃ wd', router_loop Linux [Stderr "warn"; Stdout "tauri-server-port=8080"] launch_world = Ret (tt, wd') ∧
         ∀ l, win_obs (wd_win wd') l = win_obs (wd_win launch_world) l.
Proof.
  assert (Hn : Forall (λ e, is_ready_event e = false) [Stderr "warn"; Stdout "tauri-server-port=8080"])
    by (repeat constructor).
  split; [exact Hn|]. exact (router_no_ready_no_show Linux _ launch_world Hn).
Defined.

Lemma router_ready_shows_main_witness :
  Forall (λ e, is_ready_event e = false) [Stdout "tauri-server-port=8080"] ∧
  Forall (λ e, is_ready_event e = false) [Terminated {| code := Some 0%Z; signal := None |}] ∧
  ready_marker in_str "tauri-client-ready" ∧
  win_is_open (wd_win launch_world) splash_label = true ∧
  win_is_open (wd_win launch_world) main_label = true ∧
  ∃ wd', router_loop MacOS ([Stdout "tauri-server-port=8080"] ++
           Stdout "tauri-client-ready" :: [Terminated {| code := Some 0%Z; signal := None |}])
           launch_world = Ret (tt, wd') ∧
         win_obs (wd_win wd') main_label = (true, true) ∧
         win_obs (wd_win wd') splash_label = (false, false).
Proof.
  assert (H1 : Forall (λ e, is_ready_event e = false) [Stdout "tauri-server-port=8080"])
    by (repeat constructor).
  assert (H2 : Forall (λ e, is_ready_event e = false)
                 [Terminated {| code := Some 0%Z; signal := None |}]) by (repeat constructor).
  assert (Hr : ready_marker in_str "tauri-client-ready") by reflexivity.
  assert (Hs : win_is_open (wd_win launch_world) splash_label = true) by reflexivity.
  assert (Hm : win_is_open (wd_win launch_world) main_label = true) by reflexivity.
  do 5 (split; [assumption|]).
  exact (router_ready_shows_main MacOS _ _ _ launch_world H1 H2 Hr Hs Hm).
Defined.

Lemma handle_non_marker_witness :
  is_marker_event (Stderr "warn") = false ∧
  handle_event Linux (Stderr "warn") launch_world =
    Ret (tt, exec_effect (EPrint (Text "Stderr: warn")) launch_world).
Proof.
  split; [reflexivity|]. exact (handle_non_marker Linux (Stderr "warn") launch_world eq_refl).
Defined.

Lemma handle_port_line_witness :
  port_marker in_str "tauri-server-port=8080" ∧
  str_contains ready_marker "tauri-server-port=8080" = false ∧
  ∃ port, extract_port "tauri-server-port=8080" = Ret port ∧
    handle_event Linux (Stdout "tauri-server-port=8080") launch_world =
      Ret (tt, exec_effects [EPrint (Text ("Stdout: " +:+ "tauri-server-port=8080"));
                             EEval main_label (navigation_script port)] launch_world).
Proof.
  split; [reflexivity|]. split; [reflexivity|].
  exact (handle_port_line Linux "tauri-server-port=8080" launch_world eq_refl eq_refl).
Defined.

Lemma handle_ready_line_witness :
  ready_marker in_str "tauri-client-ready" ∧
  win_is_open (wd_win launch_world) splash_label = true ∧
  win_is_open (wd_win launch_world) main_label = true ∧
  ∃ wd', handle_event Windows (Stdout "tauri-client-ready") launch_world = Ret (tt, wd') ∧
    wd_trace wd' = wd_trace launch_world ++ [EPrint (Text ("Stdout: " +:+ "tauri-client-ready"))] ++
      port_effects "tauri-client-ready" ++ [ESleep 2] ++
      (if decide (Windows = MacOS) then [EEval main_label final_dpi_script] else []) ++
      [EClose splash_label; EShow main_label] ∧
    wd_clock wd' = wd_clock launch_world + 2 ∧
    win_obs (wd_win wd') main_label = (true, true) ∧
    win_obs (wd_win wd') splash_label = (false, false).
Proof.
  do 3 (split; [reflexivity|]).
  exact (handle_ready_line Windows "tauri-client-ready" launch_world eq_refl eq_refl eq_refl).
Defined.

Lemma router_clock_stdout_witness :
  router_loop Linux [Stdout "tauri-client-ready"; OtherEvent] launch_world =
    Ret (tt, exec_effects (flat_map (event_effects Linux) [Stdout "tauri-client-ready"; OtherEvent])
                          launch_world) ∧
  wd_clock (exec_effects (flat_map (event_effects Linux) [Stdout "tauri-client-ready"; OtherEvent])
              launch_world) = 0 + 2 * 1.
Proof.
  assert (Hl : router_loop Linux [Stdout "tauri-client-ready"; OtherEvent] launch_world =
    Ret (tt, exec_effects (flat_map (event_effects Linux) [Stdout "tauri-client-ready"; OtherEvent])
                          launch_world)) by (vm_compute; reflexivity).
  split; [exact Hl|]. exact (proj1 (router_clock_stdout Linux _ _ _ tt Hl)).
Defined.
