(* ===== verification/Setup.v ===== *)
(** * [setup]: window lookups, display scaling and the sidecar spawn

    [main.rs] lines 14-149, the closure given to [Builder::setup]:

    - lines 15-16: [app.get_window("splashscreen").unwrap()] and
      [app.get_window("main").unwrap()];
    - lines 18-67, on macOS only ([#[cfg(target_os = "macos")]]): if
      [main_window.current_monitor()] is [Ok(Some(monitor))], print the
      scale factor, evaluate [dpi_script] in the main window, and when the
      scale factor is above [1.5] resize the main window to 1200x800 and
      print a line;
    - lines 69-77: build the environment, [Command::new_sidecar("trame")]
      with [expect], the arguments and environment, [spawn] with
      [expect];
    - line 79: spawn the router task on the receiver (modelled in
      [System]).

    The platform is a [Platform] record: the target OS and the results
    of [new_sidecar] and [spawn], which depend on the installation.  The
    scale factor is an IEEE-754 double, [spec_float] of the Standard
    Library, compared with [SFltb] as Rust's [>] on [f64] compares. *)

From Stdlib Require Import Ascii String ZArith SpecFloat.
From stdpp Require Import base list strings gmap.
From S2P Require Import Prelude RustStr Navigation Sidecar Window Router.

Open Scope quickview_scope.

Record Platform : Type := {
  pf_os : target_os;
  pf_new_sidecar : string → result Command string;
  pf_spawn : Command → result unit string;
}.

(** Lines 29-54. *)
Definition dpi_script : string :=
"
            // Override devicePixelRatio
            Object.defineProperty(window, 'devicePixelRatio', {
              get: function() { return 1; },
              configurable: true
            });

            // Add CSS to compensate for any remaining scaling
            const style = document.createElement('style');
            style.textContent = `
              html, body {
                -webkit-text-size-adjust: 100%;
                -webkit-font-smoothing: antialiased;
                zoom: 1;
                transform: scale(1);
                transform-origin: 0 0;
              }
              * {
                image-rendering: -webkit-optimize-contrast;
                image-rendering: crisp-edges;
              }
            `;
            document.head.appendChild(style);

            console.log('DPI override applied, devicePixelRatio:', window.devicePixelRatio);
          ".

(** [1.5_f64]: 3 * 2^51 * 2^-52. *)
Definition retina_threshold : spec_float := S754_finite false 6755399441055744 (-52).

(** [get_window(label)] *)
Definition get_window {W} `{WindowOps W} (w : W) (l : string) : option string :=
  if win_exists w l then Some l else None.

Section Setup.
Context {W : Type} `{WindowOps W}.

(** Lines 24-66, run when the target is macOS. *)
Definition dpi_setup : stm (World W) unit := λ wd,
  match win_current_monitor (wd_win wd) main_label with
  | Ok (Some scale_factor) =>
      (println (ScaleFactor scale_factor) ;;
       eval_ignore main_label dpi_script ;;
       if SFltb retina_threshold scale_factor then
         set_size_ignore main_label (1200, 800)%Z ;;
         println (Text "Adjusted window size to 1200x800 for Retina display")
       else mret ()) wd
  | _ => Ret (tt, wd)
  end.

(** Lines 14-149: the windows' state after [setup] and the command it
    spawned, or the panic that ends the process. *)
Definition setup (pf : Platform) (wd : World W) : outcome (World W * Command) :=
  _ ← unwrap_opt (get_window (wd_win wd) splash_label);
  _ ← unwrap_opt (get_window (wd_win wd) main_label);
  '(_, wd1) ← (if decide (pf_os pf = MacOS) then dpi_setup else mret ()) wd;
  sidecar ← expect (pf_new_sidecar pf sidecar_name) "failed to create sidecar";
  let cmd := server_command sidecar in
  _ ← expect (pf_spawn pf cmd) "Failed to spawn server";
  Ret (wd1, cmd).
End Setup.

(** A platform where the sidecar is found and starts. *)
Definition installed_sidecar : Command :=
  {| cmd_program := "trame"; cmd_args := []; cmd_env := ∅ |}.

Definition installed_platform (os : target_os) : Platform :=
  {| pf_os := os; pf_new_sidecar := λ _, Ok installed_sidecar; pf_spawn := λ _, Ok tt |}.

(** A platform whose sidecar binary is missing from the bundle. *)
Definition broken_platform : Platform :=
  {| pf_os := Linux; pf_new_sidecar := λ _, Err "sidecar not found"; pf_spawn := λ _, Ok tt |}.

(** A launch where the splash window is missing from the configuration. *)
Definition no_splash_world : World RefWindows :=
  {| wd_win := <["main" := ref_window false]> ∅; wd_stdout := []; wd_clock := 0; wd_trace := [] |}.

(** The launch world on a Retina display (scale factor [2.0]). *)
Definition retina_world : World RefWindows :=
  {| wd_win := <["main" := {| wr_open := true; wr_visible := false; wr_scripts := [];
                               wr_size := None;
                               wr_monitor := Ok (Some (S754_finite false 4503599627370496 (-51))) |}]>
                 ref_launch_windows;
     wd_stdout := []; wd_clock := 0; wd_trace := [] |}.

(** The effects of the macOS block, given what [current_monitor] returned. *)
Definition dpi_effects (m : result (option spec_float) string) : list Effect :=
  match m with
  | Ok (Some sf) =>
      [EPrint (ScaleFactor sf); EEval main_label dpi_script] ++
      (if SFltb retina_threshold sf then
         [ESetSize main_label (1200, 800)%Z;
          EPrint (Text "Adjusted window size to 1200x800 for Retina display")]
       else [])
  | _ => []
  end.

(** ** Lemmas *)

Section SetupLemmas.
Context {W : Type} `{WindowOps W}.

Lemma dpi_setup_exec (wd : World W) :
  dpi_setup wd =
  Ret (tt, exec_effects (dpi_effects (win_current_monitor (wd_win wd) main_label)) wd).
Proof.
  unfold dpi_setup, dpi_effects.
  destruct (win_current_monitor (wd_win wd) main_label) as [[sf|]|e]; [|done|done].
  by destruct (SFltb retina_threshold sf).
Qed.

Lemma dpi_effects_passive m : Forall (λ e, passive e = true) (dpi_effects m).
Proof.
  destruct m as [[sf|]|e]; simpl; try done.
  destruct (SFltb retina_threshold sf); by repeat constructor.
Qed.

Lemma get_window_Some (w : W) l :
  win_exists w l = true → get_window w l = Some l.
Proof. unfold get_window. by intros ->. Qed.

(** The effects [setup] performs before it returns: the DPI block's on
    macOS, none elsewhere. *)
Definition setup_effects (pf : Platform) (wd : World W) : list Effect :=
  if decide (pf_os pf = MacOS) then dpi_effects (win_current_monitor (wd_win wd) main_label)
  else [].

Lemma setup_effects_passive pf wd : Forall (λ e, passive e = true) (setup_effects pf wd).
Proof. unfold setup_effects. case_decide; [apply dpi_effects_passive|done]. Qed.

(** Whenever [setup] returns, the router task starts from the world the
    DPI block left. *)
Lemma setup_Ret (pf : Platform) (wd wd1 : World W) (cmd : Command) :
  setup pf wd = Ret (wd1, cmd) → wd1 = exec_effects (setup_effects pf wd) wd.
Proof.
  unfold setup, setup_effects. intros Hs. inv_outcome.
  destruct a1 as [[] w]. simpl in Hs. inv_outcome. simplify_eq.
  destruct (decide (pf_os pf = MacOS)); [rewrite dpi_setup_exec in Ha1|cbv [mret stm_ret] in Ha1]; by simplify_eq.
Qed.

Context `{!WindowLaws W}.

(** [setup] opens, closes, shows and hides nothing. *)
Lemma setup_Ret_obs (pf : Platform) (wd wd1 : World W) (cmd : Command) :
  setup pf wd = Ret (wd1, cmd) → ∀ l, win_obs (wd_win wd1) l = win_obs (wd_win wd) l.
Proof.
  intros Hs l. rewrite (setup_Ret pf wd wd1 cmd Hs).
  rewrite exec_effects_obs by (apply passive_effects_ok, setup_effects_passive).
  apply effects_obs_passive, setup_effects_passive.
Qed.

Lemma setup_Ret_open (pf : Platform) (wd wd1 : World W) (cmd : Command) l :
  setup pf wd = Ret (wd1, cmd) → win_is_open (wd_win wd1) l = win_is_open (wd_win wd) l.
Proof.
  intros Hs. pose proof (setup_Ret_obs pf wd wd1 cmd Hs l) as E. unfold win_obs in E. congruence.
Qed.
End SetupLemmas.

(** ** Theorems *)

Section SetupTheorems.
Context {W : Type} `{WindowOps W}.

(** C23: a missing window ends the process: [setup] panics with
    [Option::unwrap]'s message before anything else happens. *)
Theorem setup_missing_window (pf : Platform) (wd : World W) :
  win_exists (wd_win wd) splash_label = false ∨ win_exists (wd_win wd) main_label = false →
  setup pf wd = Panic "called `Option::unwrap()` on a `None` value".
Proof.
  unfold setup, get_window. intros [-> | Hm]; [done|].
  rewrite Hm. by destruct (win_exists (wd_win wd) splash_label).
Qed.

(** C24: with both windows present, a failing [new_sidecar] or [spawn]
    ends the process with the [expect] message of the code. *)
Theorem setup_sidecar_errors (pf : Platform) (wd : World W) :
  win_exists (wd_win wd) splash_label = true → win_exists (wd_win wd) main_label = true →
  (∀ e, pf_new_sidecar pf "trame" = Err e → setup pf wd = Panic "failed to create sidecar") ∧
  (∀ c e, pf_new_sidecar pf "trame" = Ok c → pf_spawn pf (server_command c) = Err e →
          setup pf wd = Panic "Failed to spawn server").
Proof.
  intros Hs Hm. unfold setup. rewrite !get_window_Some by done. cbn -[server_command dpi_setup].
  unfold sidecar_name. split.
  - intros e Hn. destruct (decide (pf_os pf = MacOS)); [rewrite dpi_setup_exec|];
      cbn -[server_command]; by rewrite Hn.
  - intros c e Hn Hsp. destruct (decide (pf_os pf = MacOS)); [rewrite dpi_setup_exec|];
      cbn -[server_command]; rewrite Hn; cbn -[server_command]; by rewrite Hsp.
Qed.

Context `{!WindowLaws W}.

(** C22: when the windows exist and the sidecar starts, [setup] spawns
    exactly [server_command] of the sidecar, and leaves every window
    open or closed, shown or hidden, as it found it (the main window
    is not shown by [setup]); off macOS it touches nothing at all. *)
Theorem setup_ok (pf : Platform) (wd : World W) (c : Command) :
  win_exists (wd_win wd) splash_label = true → win_exists (wd_win wd) main_label = true →
  pf_new_sidecar pf "trame" = Ok c → pf_spawn pf (server_command c) = Ok tt →
  ∃ wd1, setup pf wd = Ret (wd1, server_command c) ∧
    (∀ l, win_obs (wd_win wd1) l = win_obs (wd_win wd) l) ∧
    (pf_os pf ≠ MacOS → wd1 = wd).
Proof.
  intros Hs Hm Hn Hsp.
  assert (Hset : setup pf wd = Ret (exec_effects (setup_effects pf wd) wd, server_command c)).
  { unfold setup, setup_effects. rewrite !get_window_Some by done.
    cbn -[server_command dpi_setup]. unfold sidecar_name.
    case_decide; [rewrite dpi_setup_exec|]; cbn -[server_command]; rewrite Hn;
      cbn -[server_command]; by rewrite Hsp. }
  eexists. split; [exact Hset|]. split; [exact (setup_Ret_obs _ _ _ _ Hset)|].
  intros Hmac. unfold setup_effects. by rewrite decide_False.
Qed.

(** C25: on macOS with a monitor, [setup] prints the scale factor,
    evaluates the DPI script, and resizes the main window to 1200x800
    exactly when the scale factor is greater than [1.5] (IEEE-754
    comparison: a NaN never resizes). *)
Theorem dpi_resize_iff (wd : World W) (sf : spec_float) :
  win_current_monitor (wd_win wd) main_label = Ok (Some sf) →
  ∃ wd', dpi_setup wd = Ret (tt, wd') ∧
    wd_trace wd' = wd_trace wd ++ dpi_effects (Ok (Some sf)) ∧
    (ESetSize main_label (1200, 800)%Z ∈ dpi_effects (Ok (Some sf)) ↔
     SFltb retina_threshold sf = true).
Proof.
  intros Hmon. rewrite dpi_setup_exec, Hmon. eexists. split; [done|].
  rewrite exec_effects_trace. split; [done|]. simpl.
  destruct (SFltb retina_threshold sf).
  - split; [done|]. intros _. rewrite ?elem_of_app, !elem_of_cons. naive_solver.
  - rewrite ?app_nil_r, !elem_of_cons, elem_of_nil. split; [|done].
    intros [?|[?|[]]]; discriminate.
Qed.
End SetupTheorems.

(** ** Witnesses *)

Lemma setup_missing_window_witness :
  (win_exists (wd_win no_splash_world) splash_label = false ∨
   win_exists (wd_win no_splash_world) main_label = false) ∧
  setup (installed_platform Linux) no_splash_world
  = Panic "called `Option::unwrap()` on a `None` value".
Proof.
  assert (Hx : win_exists (wd_win no_splash_world) splash_label = false ∨
               win_exists (wd_win no_splash_world) main_label = false)
    by (left; reflexivity).
  split; [exact Hx|].
  exact (setup_missing_window (installed_platform Linux) no_splash_world Hx).
Defined.

Lemma setup_sidecar_errors_witness :
  win_exists (wd_win launch_world) splash_label = true ∧
  win_exists (wd_win launch_world) main_label = true ∧
  setup broken_platform launch_world = Panic "failed to create sidecar".
Proof.
  do 2 (split; [reflexivity|]).
  exact (proj1 (setup_sidecar_errors broken_platform launch_world eq_refl eq_refl)
           "sidecar not found" eq_refl).
Defined.

Lemma setup_ok_witness :
  win_exists (wd_win launch_world) splash_label = true ∧
  win_exists (wd_win launch_world) main_label = true ∧
  ∃ wd1, setup (installed_platform MacOS) launch_world = Ret (wd1, server_command installed_sidecar) ∧
    (∀ l, win_obs (wd_win wd1) l = win_obs (wd_win launch_world) l) ∧
    (pf_os (installed_platform MacOS) ≠ MacOS → wd1 = launch_world).
Proof.
  do 2 (split; [reflexivity|]).
  exact (setup_ok (installed_platform MacOS) launch_world installed_sidecar
           eq_refl eq_refl eq_refl eq_refl).
Defined.

Lemma dpi_resize_iff_witness :
  win_current_monitor (wd_win retina_world) main_label =
    Ok (Some (S754_finite false 4503599627370496 (-51))) ∧
  SFltb retina_threshold (S754_finite false 4503599627370496 (-51)) = true ∧
  ∃ wd', dpi_setup retina_world = Ret (tt, wd') ∧
    wd_trace wd' = wd_trace retina_world ++ dpi_effects (Ok (Some (S754_finite false 4503599627370496 (-51)))) ∧
    (ESetSize main_label (1200, 800)%Z ∈ dpi_effects (Ok (Some (S754_finite false 4503599627370496 (-51)))) ↔
     SFltb retina_threshold (S754_finite false 4503599627370496 (-51)) = true).
Proof.
  split; [reflexivity|]. split; [reflexivity|].
  exact (dpi_resize_iff retina_world _ eq_refl).
Defined.
