(* ===== verification/System.v ===== *)
(** * The running system: the child's output interleaved with the router

    After [setup] returns, two activities run concurrently: Tauri's
    readers forward the child's output into the event channel (and drop
    the sender when the child is done), and the router task
    ([main.rs] lines 79-147) receives and handles one event at a time.

    [System] holds the router's world, the channel, the task's state,
    and two ghost histories: the events the child sent and the events the
    task received.  [step] is one action of either side:

    - [step_send]: the child sends an event (only into an open channel
      with room, see [ch_send]);
    - [step_close]: the child's side is dropped;
    - [step_task]: one turn of the task, [task_step]:
      - [step_recv]: the task receives the oldest event and handles it;
      - [step_crash]: handling it panicked (an [unwrap] in lines 131-132):
        the task stops, the rest of the application keeps running;
      - [step_finish]: [recv] returned [None]: the [while let] loop ends.

    The theorems: every reachable state is explained by the sequential
    loop [router_loop] run on the events received so far, which are
    exactly the oldest events sent (a refinement, by induction on
    [rtc step]); once the child is done the task finishes after at most one step per
    queued event; and, over all interleavings, no window changes unless
    the child prints the ready marker. *)

From Stdlib Require Import Ascii String ZArith.
From stdpp Require Import base list strings relations.
From S2P Require Import Prelude RustStr Navigation Sidecar Window Router.

Open Scope quickview_scope.

Inductive TaskState : Type :=
| Running
| Finished
| Crashed (msg : string).

Record System (W : Type) : Type := {
  sy_world : World W;
  sy_chan : Channel;
  sy_task : TaskState;
  sy_sent : list CommandEvent;
  sy_recvd : list CommandEvent;
}.
Arguments sy_world {W} _.
Arguments sy_chan {W} _.
Arguments sy_task {W} _.
Arguments sy_sent {W} _.
Arguments sy_recvd {W} _.

(** The system right after [setup]: an empty open channel, the task
    running, nothing sent or received. *)
Definition sys_init {W} (wd : World W) : System W :=
  {| sy_world := wd; sy_chan := ch_empty; sy_task := Running; sy_sent := []; sy_recvd := [] |}.

Definition task_running {W} (s : System W) : bool :=
  match sy_task s with Running => true | _ => false end.

Section Step.
Context {W : Type} `{WindowOps W}.
Variable os : target_os.
Variable cap : option nat.

(** The child's side: its reader forwards an event into the channel, or
    drops the sender once the child is done. *)
Definition sys_sent_event (s : System W) (e : CommandEvent) (ch' : Channel) : System W :=
  {| sy_world := sy_world s; sy_chan := ch'; sy_task := sy_task s;
     sy_sent := sy_sent s ++ [e]; sy_recvd := sy_recvd s |}.

Definition sys_closed (s : System W) : System W :=
  {| sy_world := sy_world s; sy_chan := ch_close (sy_chan s); sy_task := sy_task s;
     sy_sent := sy_sent s; sy_recvd := sy_recvd s |}.

(** The router task's side: one turn of the [while let] loop. *)
Inductive task_step : System W → System W → Prop :=
| step_recv s e ch' wd' :
    sy_task s = Running → ch_recv (sy_chan s) = Received e ch' →
    handle_event os e (sy_world s) = Ret (tt, wd') →
    task_step s {| sy_world := wd'; sy_chan := ch'; sy_task := Running;
                   sy_sent := sy_sent s; sy_recvd := sy_recvd s ++ [e] |}
| step_crash s e ch' msg :
    sy_task s = Running → ch_recv (sy_chan s) = Received e ch' →
    handle_event os e (sy_world s) = Panic msg →
    task_step s {| sy_world := sy_world s; sy_chan := ch'; sy_task := Crashed msg;
                   sy_sent := sy_sent s; sy_recvd := sy_recvd s ++ [e] |}
| step_finish s :
    sy_task s = Running → ch_recv (sy_chan s) = Disconnected →
    task_step s {| sy_world := sy_world s; sy_chan := sy_chan s; sy_task := Finished;
                   sy_sent := sy_sent s; sy_recvd := sy_recvd s |}.

Inductive step : System W → System W → Prop :=
| step_send s e ch' :
    ch_send cap e (sy_chan s) = Some ch' → step s (sys_sent_event s e ch')
| step_close s :
    ch_open (sy_chan s) = true → step s (sys_closed s)
| step_task s s' :
    task_step s s' → step s s'.

(** What every reachable state satisfies, for the world [wd0] the task
    started from. *)
Definition sys_inv (wd0 : World W) (s : System W) : Prop :=
  sy_sent s = sy_recvd s ++ ch_queue (sy_chan s) ∧
  match sy_task s with
  | Running => router_loop os (sy_recvd s) wd0 = Ret (tt, sy_world s)
  | Finished => router_loop os (sy_recvd s) wd0 = Ret (tt, sy_world s) ∧
                ch_queue (sy_chan s) = [] ∧ ch_open (sy_chan s) = false
  | Crashed msg => router_loop os (sy_recvd s) wd0 = Panic msg
  end.
End Step.

(** Concrete states on the reference windows: after the child printed
    "hello" and the task handled it; after the child printed the ready
    line, closed, and the task drained the channel; and a closed channel
    with one unknown event still queued. *)
Definition hello_state : System RefWindows :=
  {| sy_world := exec_effects (event_effects Linux (Stdout "hello")) launch_world;
     sy_chan := {| ch_queue := []; ch_open := true |}; sy_task := Running;
     sy_sent := [Stdout "hello"]; sy_recvd := [Stdout "hello"] |}.

Definition ready_state : System RefWindows :=
  {| sy_world := exec_effects (event_effects Linux (Stdout "tauri-client-ready")) launch_world;
     sy_chan := {| ch_queue := []; ch_open := false |}; sy_task := Finished;
     sy_sent := [Stdout "tauri-client-ready"]; sy_recvd := [Stdout "tauri-client-ready"] |}.

Definition closed_state : System RefWindows :=
  {| sy_world := launch_world; sy_chan := {| ch_queue := [OtherEvent]; ch_open := false |};
     sy_task := Running; sy_sent := [OtherEvent]; sy_recvd := [] |}.

(** ** Lemmas *)

Section SystemLemmas.
Context {W : Type} `{WindowOps W}.
Variable os : target_os.
Variable cap : option nat.

Lemma router_loop_snoc (es : list CommandEvent) (e : CommandEvent) (wd0 w : World W) :
  router_loop os es wd0 = Ret (tt, w) →
  router_loop os (es ++ [e]) wd0 = (handle_event os e ≫= λ _, mret ()) w.
Proof. intros Hl. rewrite router_loop_app, (stm_bind_Ret _ _ _ tt w Hl). reflexivity. Qed.

Lemma router_loop_snoc_ok (es : list CommandEvent) (e : CommandEvent) (wd0 w w' : World W) :
  router_loop os es wd0 = Ret (tt, w) → handle_event os e w = Ret (tt, w') →
  router_loop os (es ++ [e]) wd0 = Ret (tt, w').
Proof. intros Hl He. rewrite (router_loop_snoc _ _ _ _ Hl), (stm_bind_Ret _ _ _ tt w' He). reflexivity. Qed.

Lemma router_loop_snoc_panic (es : list CommandEvent) (e : CommandEvent) (wd0 w : World W) msg :
  router_loop os es wd0 = Ret (tt, w) → handle_event os e w = Panic msg →
  router_loop os (es ++ [e]) wd0 = Panic msg.
Proof. intros Hl He. rewrite (router_loop_snoc _ _ _ _ Hl). by apply stm_bind_Panic. Qed.

Lemma sys_inv_init (wd0 : World W) : sys_inv os wd0 (sys_init wd0).
Proof. by split. Qed.

Lemma sys_inv_task_step (wd0 : World W) (s s' : System W) :
  sys_inv os wd0 s → task_step os s s' → sys_inv os wd0 s'.
Proof.
  intros [Hq Ht] Hst. destruct Hst as [s e ch' wd' Hr Hrecv He|s e ch' msg Hr Hrecv He|s Hr Hd];
    unfold sys_inv; simpl; rewrite Hr in Ht.
  - apply ch_recv_Received in Hrecv as [Hqe _].
    split; [by rewrite Hq, Hqe, <-app_assoc|]. by eapply router_loop_snoc_ok.
  - apply ch_recv_Received in Hrecv as [Hqe _].
    split; [by rewrite Hq, Hqe, <-app_assoc|]. by eapply router_loop_snoc_panic.
  - apply ch_recv_Disconnected in Hd as [Hqn Hon]. by split.
Qed.

Lemma sys_inv_step (wd0 : World W) (s s' : System W) :
  sys_inv os wd0 s → step os cap s s' → sys_inv os wd0 s'.
Proof.
  intros Hinv Hst. destruct Hst as [s e ch' Hs|s Ho|s s' Ht']; [| |by eapply sys_inv_task_step].
  all: destruct Hinv as [Hq Ht]; unfold sys_inv; simpl.
  - apply ch_send_Some in Hs as (Ho & -> & _). split; [by rewrite Hq, app_assoc|].
    destruct (sy_task s); try done. destruct Ht as (_ & _ & Hc). congruence.
  - split; [done|]. destruct (sy_task s); try done. destruct Ht as (_ & _ & Hc).
    congruence.
Qed.

Lemma sys_inv_rtc (wd0 : World W) (s : System W) :
  rtc (step os cap) (sys_init wd0) s → sys_inv os wd0 s.
Proof.
  intros Hrtc. remember (sys_init wd0) as s0 eqn:E.
  assert (Hinv : sys_inv os wd0 s0) by (subst; apply sys_inv_init).
  clear E. induction Hrtc as [s|s1 s2 s3 Hst _ IH]; [done|].
  apply IH. by eapply sys_inv_step.
Qed.

(** One receive step from a running task with a queued event. *)
Lemma step_recv_any (s : System W) e q :
  sy_task s = Running → ch_queue (sy_chan s) = e :: q →
  ∃ s', task_step os s s' ∧ ch_queue (sy_chan s') = q ∧ ch_open (sy_chan s') = ch_open (sy_chan s) ∧
        (sy_task s' = Running ∨ ∃ msg, sy_task s' = Crashed msg).
Proof.
  intros Hr Hq.
  assert (Hrecv : ch_recv (sy_chan s) =
                  Received e {| ch_queue := q; ch_open := ch_open (sy_chan s) |})
    by (unfold ch_recv; by rewrite Hq).
  destruct (handle_event os e (sy_world s)) as [[[] wd']|msg] eqn:He.
  - eexists. split; [eapply step_recv; eauto|]. simpl. eauto.
  - eexists. split; [eapply step_crash; eauto|]. simpl. eauto.
Qed.
(** What one turn of the task changes: it ran from [Running], kept the
    sent events and whether the channel is open, shrank the queue or
    stopped, and finishes only on a closed channel. *)
Lemma task_step_facts (s s' : System W) :
  task_step os s s' →
  sy_task s = Running ∧ sy_sent s' = sy_sent s ∧
  ch_open (sy_chan s') = ch_open (sy_chan s) ∧
  (sy_task s' = Finished → ch_open (sy_chan s') = false) ∧
  length (ch_queue (sy_chan s')) + (if task_running s' then 1 else 0) <
    length (ch_queue (sy_chan s)) + 1.
Proof.
  destruct 1 as [s e ch' wd' Hr Hrecv He|s e ch' msg Hr Hrecv He|s Hr Hd]; simpl;
    split_and!; try done.
  - by apply ch_recv_Received in Hrecv as [_ ->].
  - apply ch_recv_Received in Hrecv as [-> _]. simpl. lia.
  - by apply ch_recv_Received in Hrecv as [_ ->].
  - apply ch_recv_Received in Hrecv as [-> _]. simpl. lia.
  - intros _. by apply ch_recv_Disconnected in Hd as [_ ->].
  - lia.
Qed.

End SystemLemmas.

(** ** Theorems *)

Section SystemTheorems.
Context {W : Type} `{WindowOps W}.
Variable os : target_os.
Variable cap : option nat.

(** C4: refinement of the concurrent system by the sequential loop: in
    every state reachable by any interleaving of the child's sends and
    the task's steps, the task has received exactly the oldest events
    sent, in order (FIFO), and its world is what [router_loop] computes
    on them; a crashed task is a panic of that loop; a finished task
    has drained a closed channel. *)
Theorem system_refines_loop (wd0 : World W) (s : System W) :
  rtc (step os cap) (sys_init wd0) s →
  sy_sent s = sy_recvd s ++ ch_queue (sy_chan s) ∧
  match sy_task s with
  | Running => router_loop os (sy_recvd s) wd0 = Ret (tt, sy_world s)
  | Finished => router_loop os (sy_recvd s) wd0 = Ret (tt, sy_world s) ∧
                ch_queue (sy_chan s) = [] ∧ ch_open (sy_chan s) = false
  | Crashed msg => router_loop os (sy_recvd s) wd0 = Panic msg
  end.
Proof. apply sys_inv_rtc. Qed.

(** C14: termination of the [while let] loop: once the child's side is
    closed, a running task stops (finishes, or crashes on a panic)
    within one step per queued event plus one. *)
Theorem system_drains (s : System W) :
  ch_open (sy_chan s) = false → sy_task s = Running →
  ∃ n s', n ≤ S (length (ch_queue (sy_chan s))) ∧ nsteps (step os cap) n s s' ∧
          sy_task s' ≠ Running.
Proof.
  remember (length (ch_queue (sy_chan s))) as k eqn:Hk. revert s Hk.
  induction k as [|k IH]; intros s Hk Ho Hr.
  - symmetry in Hk. apply nil_length_inv in Hk.
    exists 1, {| sy_world := sy_world s; sy_chan := sy_chan s; sy_task := Finished;
                 sy_sent := sy_sent s; sy_recvd := sy_recvd s |}.
    split; [lia|]. split; [|done]. apply nsteps_once, step_task, step_finish; [done|].
    by apply ch_recv_Disconnected.
  - destruct (ch_queue (sy_chan s)) as [|e q] eqn:Hq; [done|].
    destruct (step_recv_any os s e q Hr Hq) as (s1 & Hst & Hq1 & Ho1 & [Hr1 | [msg Hc]]).
    + destruct (IH s1) as (n & s' & Hn & Hns & Hs'); [simpl in Hk; rewrite Hq1; lia
                                                    | congruence | done |].
      exists (S n), s'. split; [simpl in *; lia|]. split; [eapply nsteps_l; [by apply step_task|done]|done].
    + exists 1, s1. split; [lia|]. split; [by apply nsteps_once, step_task|]. by rewrite Hc.
Qed.

Context `{!WindowLaws W}.

(** C12: over every interleaving, while the child has sent no line with
    the ready marker, the task has not crashed and no window has been
    opened, closed, shown or hidden. *)
Theorem system_no_ready_no_show (wd0 : World W) (s : System W) :
  rtc (step os cap) (sys_init wd0) s →
  Forall (λ e, is_ready_event e = false) (sy_sent s) →
  (∀ msg, sy_task s ≠ Crashed msg) ∧
  ∀ l, win_obs (wd_win (sy_world s)) l = win_obs (wd_win wd0) l.
Proof.
  intros Hrtc Hn. destruct (sys_inv_rtc os cap wd0 s Hrtc) as [Hq Ht].
  rewrite Hq in Hn. apply Forall_app in Hn as [Hn _].
  destruct (router_loop_passive os (sy_recvd s) wd0 Hn) as [Hl Ho].
  destruct (sy_task s) as [| |msg]; [| destruct Ht as [Ht _] |].
  - rewrite Hl in Ht. injection Ht as <-. split; [done|exact Ho].
  - rewrite Hl in Ht. injection Ht as <-. split; [done|exact Ho].
  - congruence.
Qed.

(** C13: once the task has finished after the child sent exactly one
    ready line, started with both windows open, the main window is
    shown and the splash window closed, whatever the interleaving. *)
Theorem system_ready_shows_main (wd0 : World W) (s : System W)
    (es1 es2 : list CommandEvent) (line : string) :
  rtc (step os cap) (sys_init wd0) s → sy_task s = Finished →
  sy_sent s = es1 ++ Stdout line :: es2 →
  Forall (λ e, is_ready_event e = false) es1 →
  Forall (λ e, is_ready_event e = false) es2 →
  ready_marker in_str line →
  win_is_open (wd_win wd0) splash_label = true →
  win_is_open (wd_win wd0) main_label = true →
  win_obs (wd_win (sy_world s)) main_label = (true, true) ∧
  win_obs (wd_win (sy_world s)) splash_label = (false, false).
Proof.
  intros Hrtc Hf Hs H1 H2 Hr Hso Hmo.
  destruct (sys_inv_rtc os cap wd0 s Hrtc) as [Hq Ht]. rewrite Hf in Ht.
  destruct Ht as (Hl & Hqe & _). rewrite Hqe, app_nil_r, Hs in Hq.
  rewrite <-Hq in Hl. apply router_loop_Ret in Hl as ->.
  by destruct (ready_run_ok os es1 es2 line wd0 H1 H2 Hr Hso Hmo) as (_ & ? & ?).
Qed.
End SystemTheorems.

(** ** Witnesses *)

Lemma hello_reachable : rtc (step Linux None) (sys_init launch_world) hello_state.
Proof.
  eapply rtc_l; [apply (step_send _ _ _ (Stdout "hello")); reflexivity|].
  eapply rtc_l; [apply step_task; eapply step_recv; reflexivity|]. apply rtc_refl.
Qed.

Lemma ready_reachable : rtc (step Linux None) (sys_init launch_world) ready_state.
Proof.
  eapply rtc_l; [apply (step_send _ _ _ (Stdout "tauri-client-ready")); reflexivity|].
  eapply rtc_l; [apply step_close; reflexivity|].
  eapply rtc_l; [apply step_task; eapply step_recv; reflexivity|].
  eapply rtc_l; [apply step_task, step_finish; reflexivity|]. apply rtc_refl.
Qed.

Lemma system_refines_loop_witness :
  rtc (step Linux None) (sys_init launch_world) hello_state ∧
  sy_sent hello_state = sy_recvd hello_state ++ ch_queue (sy_chan hello_state) ∧
  router_loop Linux (sy_recvd hello_state) launch_world = Ret (tt, sy_world hello_state).
Proof.
  split; [exact hello_reachable|].
  exact (system_refines_loop Linux None launch_world hello_state hello_reachable).
Defined.

Lemma system_drains_witness :
  ch_open (sy_chan closed_state) = false ∧ sy_task closed_state = Running ∧
  ∃ n s', n ≤ S (length (ch_queue (sy_chan closed_state))) ∧
          nsteps (step Linux None) n closed_state s' ∧ sy_task s' ≠ Running.
Proof.
  split; [reflexivity|]. split; [reflexivity|].
  exact (system_drains Linux None closed_state eq_refl eq_refl).
Defined.

Lemma system_no_ready_no_show_witness :
  rtc (step Linux None) (sys_init launch_world) hello_state ∧
  Forall (λ e, is_ready_event e = false) (sy_sent hello_state) ∧
  (∀ msg, sy_task hello_state ≠ Crashed msg) ∧
  ∀ l, win_obs (wd_win (sy_world hello_state)) l = win_obs (wd_win launch_world) l.
Proof.
  assert (Hn : Forall (λ e, is_ready_event e = false) (sy_sent hello_state))
    by (repeat constructor).
  split; [exact hello_reachable|]. split; [exact Hn|].
  exact (system_no_ready_no_show Linux None launch_world hello_state hello_reachable Hn).
Defined.

Lemma system_ready_shows_main_witness :
  rtc (step Linux None) (sys_init launch_world) ready_state ∧
  sy_task ready_state = Finished ∧
  sy_sent ready_state = [] ++ Stdout "tauri-client-ready" :: [] ∧
  ready_marker in_str "tauri-client-ready" ∧
  win_obs (wd_win (sy_world ready_state)) main_label = (true, true) ∧
  win_obs (wd_win (sy_world ready_state)) splash_label = (false, false).
Proof.
  do 4 (split; [first [exact ready_reachable | reflexivity]|]).
  exact (system_ready_shows_main Linux None launch_world ready_state [] [] "tauri-client-ready"
           ready_reachable eq_refl eq_refl (List.Forall_nil _) (List.Forall_nil _) eq_refl eq_refl eq_refl).
Defined.
