(* ===== verification/Launch.v ===== *)
(** * The launch: [setup], the child process and the router task together

    [setup] (lines 14-78) returns the world and the spawned command; at
    line 79 it hands the receiver [rx] to the router task.  From then on
    three activities interleave:

    - the child process writes its output; Tauri's reader threads turn
      every line into a [CommandEvent] and [send] it on the channel,
      waiting while the channel is full.  Once the child is done, the
      last sender is dropped, which closes the channel;
    - once the router task has stopped, because it crashed on a panic,
      its receiver is dropped: a later [send] fails, and the reader
      ignores the error ([let _ = tx.send(..)]), so the event is lost;
    - the router task runs [task_step].

    The child is its output: the list of events its readers have yet to
    forward.  [Launch] pairs it with the [System] of [System.v].

    - [lstep] is one action of the launch; every [lstep] is a [step] of
      the system, or leaves it unchanged (a lost event), so every
      theorem on reachable systems applies to launches.
    - [launch_measure] strictly decreases along [lstep]: every launch
      terminates, within [2 * |output| + 2] steps from the start.
    - [launch_next] is a deterministic scheduler (the router first,
      then the child), and [launch_run] iterates it with fuel.  With a
      channel that holds at least one event, the states where it
      stops are exactly the final ones, and fuel [launch_measure]
      always suffices.
    - [launch_inv] records what the child's output says about the
      events sent.  The end-to-end theorem follows from it: after
      [setup], a child that prints one ready line gets every event
      handled in order, ending with the main window shown and the
      splash closed, whatever the interleaving. *)

From Stdlib Require Import Ascii String ZArith.
From stdpp Require Import base list strings relations.
From S2P Require Import Prelude RustStr Navigation Sidecar Window Router Setup System.

Open Scope quickview_scope.

Record Launch (W : Type) : Type := {
  ln_sys : System W;
  ln_child : list CommandEvent;
}.
Arguments ln_sys {W} _.
Arguments ln_child {W} _.

(** Line 79: the router task starts on the world [setup] returned, with
    an empty channel; the child has its whole output ahead of it. *)
Definition launch_init {W} (wd : World W) (out : list CommandEvent) : Launch W :=
  {| ln_sys := sys_init wd; ln_child := out |}.

(** A launch is over when the child's output is all forwarded or lost,
    the channel is closed, and the task has stopped. *)
Definition launch_final {W} (c : Launch W) : bool :=
  bool_decide (ln_child c = []) && negb (ch_open (sy_chan (ln_sys c))) &&
  negb (task_running (ln_sys c)).

Definition launch_measure {W} (c : Launch W) : nat :=
  2 * length (ln_child c) + length (ch_queue (sy_chan (ln_sys c))) +
  (if ch_open (sy_chan (ln_sys c)) then 1 else 0) +
  (if task_running (ln_sys c) then 1 else 0).

Section LaunchStep.
Context {W : Type} `{WindowOps W}.
Variable os : target_os.
Variable cap : option nat.

Inductive lstep : Launch W → Launch W → Prop :=
| lstep_send s e out ch' :
    sy_task s = Running → ch_send cap e (sy_chan s) = Some ch' →
    lstep {| ln_sys := s; ln_child := e :: out |}
          {| ln_sys := sys_sent_event s e ch'; ln_child := out |}
| lstep_lost s e out :
    sy_task s ≠ Running →
    lstep {| ln_sys := s; ln_child := e :: out |} {| ln_sys := s; ln_child := out |}
| lstep_close s :
    ch_open (sy_chan s) = true →
    lstep {| ln_sys := s; ln_child := [] |} {| ln_sys := sys_closed s; ln_child := [] |}
| lstep_task s s' out :
    task_step os s s' →
    lstep {| ln_sys := s; ln_child := out |} {| ln_sys := s'; ln_child := out |}.

(** One turn of the router task, computed: [None] when it is not
    running or waits on an empty open channel. *)
Definition task_next (s : System W) : option (System W) :=
  match sy_task s with
  | Running =>
      match ch_recv (sy_chan s) with
      | Received e ch' =>
          match handle_event os e (sy_world s) with
          | Ret (_, wd') =>
              Some {| sy_world := wd'; sy_chan := ch'; sy_task := Running;
                      sy_sent := sy_sent s; sy_recvd := sy_recvd s ++ [e] |}
          | Panic msg =>
              Some {| sy_world := sy_world s; sy_chan := ch'; sy_task := Crashed msg;
                      sy_sent := sy_sent s; sy_recvd := sy_recvd s ++ [e] |}
          end
      | Disconnected =>
          Some {| sy_world := sy_world s; sy_chan := sy_chan s; sy_task := Finished;
                  sy_sent := sy_sent s; sy_recvd := sy_recvd s |}
      | Pending => None
      end
  | _ => None
  end.

(** One action of the child's side, computed. *)
Definition child_next (c : Launch W) : option (Launch W) :=
  let s := ln_sys c in
  match ln_child c with
  | e :: out =>
      if task_running s then
        match ch_send cap e (sy_chan s) with
        | Some ch' => Some {| ln_sys := sys_sent_event s e ch'; ln_child := out |}
        | None => None
        end
      else Some {| ln_sys := s; ln_child := out |}
  | [] => if ch_open (sy_chan s) then Some {| ln_sys := sys_closed s; ln_child := [] |}
          else None
  end.

(** The scheduler: the router task first, the child when the task waits. *)
Definition launch_next (c : Launch W) : option (Launch W) :=
  match task_next (ln_sys c) with
  | Some s' => Some {| ln_sys := s'; ln_child := ln_child c |}
  | None => child_next c
  end.

Fixpoint launch_run (fuel : nat) (c : Launch W) : Launch W :=
  match fuel with
  | 0 => c
  | S fuel' => match launch_next c with Some c' => launch_run fuel' c' | None => c end
  end.

(** What the child's output says of the events sent: they are a prefix
    of it; while the task has not crashed nothing is lost, so the sent
    events and the rest of the output make up all of it; a closed
    channel means the output is exhausted, and a finished task means a
    closed channel. *)
Record launch_inv (out : list CommandEvent) (c : Launch W) : Prop := {
  li_prefix : sy_sent (ln_sys c) `prefix_of` out;
  li_complete : (∀ msg, sy_task (ln_sys c) ≠ Crashed msg) →
                sy_sent (ln_sys c) ++ ln_child c = out;
  li_closed : ch_open (sy_chan (ln_sys c)) = false → ln_child c = [];
  li_finished : sy_task (ln_sys c) = Finished → ch_open (sy_chan (ln_sys c)) = false;
}.
End LaunchStep.

(** ** Lemmas *)

Section LaunchLemmas.
Context {W : Type} `{WindowOps W}.
Variable os : target_os.
Variable cap : option nat.

Lemma lstep_measure (c c' : Launch W) :
  lstep os cap c c' → launch_measure c' < launch_measure c.
Proof.
  unfold launch_measure.
  destruct 1 as [s e out ch' Hr Hs|s e out Hr|s Ho|s s' out Ht];
    unfold sys_sent_event, sys_closed; simpl.
  - apply ch_send_Some in Hs as (Ho & -> & ->). rewrite Ho, length_app. unfold task_running. simpl. lia.
  - lia.
  - rewrite Ho. unfold task_running. simpl. lia.
  - destruct (task_step_facts os s s' Ht) as (Hr & _ & -> & _ & Hlt).
    unfold task_running at 2. rewrite Hr. lia.
Qed.

(** Every launch step is a step of the system, or leaves it as it is. *)
Lemma lstep_system (c c' : Launch W) :
  lstep os cap c c' → rtc (step os cap) (ln_sys c) (ln_sys c').
Proof.
  destruct 1; simpl; [apply rtc_once; by apply step_send | done
                     | apply rtc_once; by apply step_close | apply rtc_once; by apply step_task].
Qed.

Lemma lstep_rtc_system (c c' : Launch W) :
  rtc (lstep os cap) c c' → rtc (step os cap) (ln_sys c) (ln_sys c').
Proof.
  induction 1 as [|c1 c2 c3 Hs _ IH]; [done|].
  etrans; [by apply lstep_system|done].
Qed.

Lemma task_next_sound (s s' : System W) : task_next os s = Some s' → task_step os s s'.
Proof.
  unfold task_next. destruct (sy_task s) eqn:Hr; try discriminate.
  destruct (ch_recv (sy_chan s)) as [e ch'| |] eqn:Hrecv; try discriminate.
  - destruct (handle_event os e (sy_world s)) as [[[] wd']|msg] eqn:He; intros [= <-].
    + by eapply step_recv.
    + by eapply step_crash.
  - intros [= <-]. by apply step_finish.
Qed.

Lemma launch_next_sound (c c' : Launch W) : launch_next os cap c = Some c' → lstep os cap c c'.
Proof.
  destruct c as [s out]. unfold launch_next, child_next. simpl.
  destruct (task_next os s) as [s1|] eqn:Ht.
  - intros [= <-]. apply lstep_task. by apply task_next_sound.
  - destruct out as [|e out].
    + destruct (ch_open (sy_chan s)) eqn:Ho; [intros [= <-]; by apply lstep_close|done].
    + unfold task_running. destruct (sy_task s) eqn:Hr.
      * destruct (ch_send cap e (sy_chan s)) eqn:Hs; [intros [= <-]|done].
        by apply lstep_send.
      * intros [= <-]. apply lstep_lost. by rewrite Hr.
      * intros [= <-]. apply lstep_lost. by rewrite Hr.
Qed.

(** A channel that holds at least one event accepts a send when empty. *)
Lemma ch_send_empty (e : CommandEvent) (ch : Channel) :
  cap ≠ Some 0 → ch_open ch = true → ch_queue ch = [] → ∃ ch', ch_send cap e ch = Some ch'.
Proof.
  intros Hc Ho Hq. unfold ch_send. rewrite Ho, Hq.
  destruct cap as [[|n]|]; [done| |eauto]. case_decide; [eauto|simpl in *; lia].
Qed.

(** The scheduler stops exactly on final launches. *)
Lemma launch_next_None (c : Launch W) :
  cap ≠ Some 0 → launch_next os cap c = None ↔ launch_final c = true.
Proof.
  intros Hc. destruct c as [s out].
  unfold launch_next, child_next, launch_final, task_running, task_next. simpl.
  destruct (sy_task s) eqn:Hr; simpl; rewrite ?andb_false_r.
  - destruct (ch_recv (sy_chan s)) as [e ch'| |] eqn:Hrecv.
    + by destruct (handle_event os e (sy_world s)) as [[]|].
    + done.
    + unfold ch_recv in Hrecv. destruct (ch_queue (sy_chan s)) eqn:Hq; [|done].
      destruct (ch_open (sy_chan s)) eqn:Ho; [|done].
      destruct out as [|e out]; [done|].
      by destruct (ch_send_empty e (sy_chan s) Hc Ho Hq) as [ch' ->].
  - destruct out; [|done]. rewrite bool_decide_true by done.
    by destruct (ch_open (sy_chan s)).
  - destruct out; [|done]. rewrite bool_decide_true by done.
    by destruct (ch_open (sy_chan s)).
Qed.

Lemma launch_measure_0 (c : Launch W) : launch_measure c = 0 → launch_final c = true.
Proof.
  unfold launch_measure, launch_final. destruct c as [s out]; simpl.
  destruct out; [|simpl; lia]. destruct (ch_open _), (task_running _); simpl; [lia..|].
  by rewrite ?bool_decide_true.
Qed.

(** Final launches take no step. *)
Lemma launch_final_stuck (c c' : Launch W) : launch_final c = true → ¬ lstep os cap c c'.
Proof.
  unfold launch_final. intros Hf Hs. apply andb_prop in Hf as [Hf Ht].
  apply andb_prop in Hf as [Hf Ho]. apply bool_decide_eq_true in Hf.
  destruct Hs as [s e out ch' Hr _|s e out _|s Ho'|s s' out Hst]; simpl in *;
    try discriminate.
  - by rewrite Ho' in Ho.
  - apply (task_step_facts os) in Hst as (Hr & _). unfold task_running in Ht. by rewrite Hr in Ht.
Qed.

Lemma launch_inv_init (wd : World W) (out : list CommandEvent) :
  launch_inv out (launch_init wd out).
Proof. split; simpl; [apply prefix_nil|done|discriminate|discriminate]. Qed.

Lemma launch_inv_step (out : list CommandEvent) (c c' : Launch W) :
  launch_inv out c → lstep os cap c c' → launch_inv out c'.
Proof.
  intros [Hp Hc Hcl Hf]. destruct 1 as [s e rest ch' Hr Hs|s e rest Hr|s Ho|s s' rest Ht];
    simpl in *.
  - apply ch_send_Some in Hs as (_ & _ & Ho').
    assert (Hout : (sy_sent s ++ [e]) ++ rest = out)
      by (rewrite <-app_assoc; apply Hc; by rewrite Hr).
    split; simpl; [by eexists | done | by rewrite Ho' | by rewrite Hr].
  - split; simpl; [done| |by intros ?%Hcl|done].
    intros Hnc. destruct (sy_task s) as [| |msg] eqn:Ht; [done| |by destruct (Hnc msg)].
    by pose proof (Hcl (Hf eq_refl)).
  - split; simpl; [done|done|done|done].
  - destruct (task_step_facts os s s' Ht) as (Hr & Hsent & Ho & Hfin & _).
    split; simpl; rewrite ?Hsent; [done| |by rewrite Ho|done].
    intros _. apply Hc. by rewrite Hr.
Qed.

Lemma launch_inv_rtc (wd : World W) (out : list CommandEvent) (c : Launch W) :
  rtc (lstep os cap) (launch_init wd out) c → launch_inv out c.
Proof.
  intros Hr. remember (launch_init wd out) as c0 eqn:E.
  assert (Hi : launch_inv out c0) by (subst; apply launch_inv_init). clear E.
  induction Hr as [|c1 c2 c3 Hs _ IH]; [done|]. apply IH. by eapply launch_inv_step.
Qed.

(** The scheduler only takes launch steps. *)
Lemma launch_run_rtc (fuel : nat) (c : Launch W) :
  rtc (lstep os cap) c (launch_run os cap fuel c).
Proof.
  revert c; induction fuel as [|fuel IH]; intros c; simpl; [done|].
  destruct (launch_next os cap c) as [c'|] eqn:Hn; [|done].
  eapply rtc_l; [by apply launch_next_sound|apply IH].
Qed.

(** A panic on the first events is a panic of the whole loop. *)
Lemma router_loop_prefix_panic (es1 es2 : list CommandEvent) (wd : World W) msg :
  router_loop os es1 wd = Panic msg → router_loop os (es1 ++ es2) wd = Panic msg.
Proof. intros Hp. rewrite router_loop_app. by apply stm_bind_Panic. Qed.

(** The run of a reachable launch: the task's world is the sequential
    loop on the events received, which are a prefix of the output. *)
Lemma launch_reachable (wd : World W) (out : list CommandEvent) (c : Launch W) :
  rtc (lstep os cap) (launch_init wd out) c →
  rtc (step os cap) (sys_init wd) (ln_sys c) ∧ sys_inv os wd (ln_sys c) ∧ launch_inv out c.
Proof.
  intros Hr. pose proof (lstep_rtc_system _ _ Hr) as Hs.
  split; [done|]. split; [by eapply sys_inv_rtc|by eapply launch_inv_rtc].
Qed.
End LaunchLemmas.

(** ** Theorems *)

Section LaunchTheorems.
Context {W : Type} `{WindowOps W}.
Variable os : target_os.
Variable cap : option nat.

(** C9: termination of the whole launch: every run from a launch
    state takes at most [launch_measure] steps; from the start that is
    [2 * |output| + 2] (each output event is sent or lost, then
    received; plus the close and the end of the loop). *)
Theorem launch_terminates (c c' : Launch W) (n : nat) :
  nsteps (lstep os cap) n c c' → n ≤ launch_measure c.
Proof.
  induction 1 as [c|n c1 c2 c3 Hs _ IH]; [lia|].
  pose proof (lstep_measure os cap c1 c2 Hs). lia.
Qed.

(** C10: absence of deadlock: with a channel that can hold an event, a
    launch can take no step exactly when it is over: the output is
    forwarded, the channel closed and the task stopped. *)
Theorem launch_stuck_iff_final (c : Launch W) :
  cap ≠ Some 0 → (∀ c', ¬ lstep os cap c c') ↔ launch_final c = true.
Proof.
  intros Hc. split.
  - intros Hstuck. apply (launch_next_None os cap c Hc).
    destruct (launch_next os cap c) as [c'|] eqn:Hn; [|done].
    by destruct (Hstuck c' (launch_next_sound os cap c c' Hn)).
  - intros Hf c'. by apply launch_final_stuck.
Qed.

(** Fuel [launch_measure c] is enough: [launch_run] follows launch steps
    and stops on a final launch. *)
Lemma launch_run_final (c : Launch W) (fuel : nat) :
  cap ≠ Some 0 → launch_measure c ≤ fuel →
  rtc (lstep os cap) c (launch_run os cap fuel c) ∧ launch_final (launch_run os cap fuel c) = true.
Proof.
  intros Hc Hle. split; [apply launch_run_rtc|]. revert c Hle.
  induction fuel as [|fuel IH]; intros c Hle; simpl; [apply launch_measure_0; lia|].
  destruct (launch_next os cap c) as [c'|] eqn:Hn; [|by apply (launch_next_None os cap c Hc)].
  pose proof (lstep_measure os cap c c' (launch_next_sound os cap c c' Hn)).
  apply IH. lia.
Qed.

Context `{!WindowLaws W}.

(** C1: the launch end to end: after [setup] returned on a world with
    both windows open, a child whose output holds exactly one line with
    the ready marker ends, whatever the interleaving and the channel's
    capacity, with every event of its output received and handled in
    order, the task finished (no panic), the main window shown and the
    splash window closed. *)
Theorem launch_end_to_end (pf : Platform) (wd wd1 : World W) (cmd : Command)
    (es1 es2 : list CommandEvent) (line : string) (c : Launch W) :
  setup pf wd = Ret (wd1, cmd) →
  win_is_open (wd_win wd) splash_label = true →
  win_is_open (wd_win wd) main_label = true →
  Forall (λ e, is_ready_event e = false) es1 →
  Forall (λ e, is_ready_event e = false) es2 →
  ready_marker in_str line →
  rtc (lstep (pf_os pf) cap) (launch_init wd1 (es1 ++ Stdout line :: es2)) c →
  launch_final c = true →
  sy_task (ln_sys c) = Finished ∧ sy_recvd (ln_sys c) = es1 ++ Stdout line :: es2 ∧
  win_obs (wd_win (sy_world (ln_sys c))) main_label = (true, true) ∧
  win_obs (wd_win (sy_world (ln_sys c))) splash_label = (false, false).
Proof.
  intros Hset Hs Hm H1 H2 Hr Hrun Hfin.
  set (out := es1 ++ Stdout line :: es2) in *.
  assert (Hs1 : win_is_open (wd_win wd1) splash_label = true)
    by (by rewrite (setup_Ret_open pf wd wd1 cmd _ Hset)).
  assert (Hm1 : win_is_open (wd_win wd1) main_label = true)
    by (by rewrite (setup_Ret_open pf wd wd1 cmd _ Hset)).
  destruct (ready_run_ok (pf_os pf) es1 es2 line wd1 H1 H2 Hr Hs1 Hm1) as (Hok & Hmain & Hsplash).
  pose proof (router_loop_exec (pf_os pf) out wd1 Hok) as Hloop.
  destruct (launch_reachable (pf_os pf) cap wd1 out c Hrun) as (_ & [Hq Ht] & [Hp Hc _ _]).
  destruct (sy_task (ln_sys c)) as [| |msg] eqn:Htask.
  - unfold launch_final, task_running in Hfin. rewrite Htask in Hfin.
    by rewrite andb_false_r in Hfin.
  - destruct Ht as (Hl & Hqe & _). rewrite Hqe, app_nil_r in Hq.
    assert (Hrecv : sy_recvd (ln_sys c) = out).
    { rewrite <-Hq. unfold launch_final in Hfin.
      apply andb_prop in Hfin as [Hfin _]. apply andb_prop in Hfin as [Hfin _].
      apply bool_decide_eq_true in Hfin. rewrite <-(app_nil_r (sy_sent _)), <-Hfin.
      apply Hc. intros msg. by rewrite ?Htask. }
    rewrite Hrecv, Hloop in Hl. injection Hl as <-. done.
  - exfalso. destruct Hp as [rest Hp]. rewrite Hq, <-app_assoc in Hp.
    apply (router_loop_prefix_panic (pf_os pf) _ (ch_queue (sy_chan (ln_sys c)) ++ rest)) in Ht.
    rewrite <-Hp in Ht. congruence.
Qed.
End LaunchTheorems.

(** ** Witnesses

    A child that prints its port, a warning, the ready line, then exits;
    a channel of capacity one; the reference windows on Linux. *)

Definition demo_out : list CommandEvent :=
  [Stdout "tauri-server-port=8080"; Stderr "warning"; Stdout "tauri-client-ready";
   Terminated {| code := Some 0%Z; signal := None |}].

Definition demo_launch : Launch RefWindows := launch_init launch_world demo_out.

Definition demo_final : Launch RefWindows :=
  launch_run Linux (Some 1) (launch_measure demo_launch) demo_launch.

Lemma demo_final_reached : rtc (lstep Linux (Some 1)) demo_launch demo_final.
Proof. apply launch_run_rtc. Qed.

Lemma launch_terminates_witness :
  nsteps (lstep Linux (Some 1)) 1 demo_launch
    (launch_run Linux (Some 1) 1 demo_launch) ∧
  1 ≤ launch_measure demo_launch.
Proof.
  assert (Hs : nsteps (lstep Linux (Some 1)) 1 demo_launch (launch_run Linux (Some 1) 1 demo_launch)).
  { apply nsteps_once, launch_next_sound. vm_compute. reflexivity. }
  split; [exact Hs|]. exact (launch_terminates Linux (Some 1) _ _ 1 Hs).
Defined.

Lemma launch_stuck_iff_final_witness :
  Some 1 ≠ Some 0 ∧ launch_final demo_final = true ∧
  ((∀ c', ¬ lstep Linux (Some 1) demo_final c') ↔ launch_final demo_final = true).
Proof.
  split; [discriminate|]. split; [vm_compute; reflexivity|].
  apply (launch_stuck_iff_final Linux (Some 1) demo_final). discriminate.
Defined.

Lemma launch_end_to_end_witness :
  setup (installed_platform Linux) launch_world = Ret (launch_world, server_command installed_sidecar) ∧
  launch_final demo_final = true ∧
  sy_task (ln_sys demo_final) = Finished ∧ sy_recvd (ln_sys demo_final) = demo_out ∧
  win_obs (wd_win (sy_world (ln_sys demo_final))) main_label = (true, true) ∧
  win_obs (wd_win (sy_world (ln_sys demo_final))) splash_label = (false, false).
Proof.
  assert (Hset : setup (installed_platform Linux) launch_world =
                 Ret (launch_world, server_command installed_sidecar)) by (vm_compute; reflexivity).
  assert (Hfin : launch_final demo_final = true) by (vm_compute; reflexivity).
  assert (H1 : Forall (λ e, is_ready_event e = false)
                 [Stdout "tauri-server-port=8080"; Stderr "warning"]) by (repeat constructor).
  assert (H2 : Forall (λ e, is_ready_event e = false)
                 [Terminated {| code := Some 0%Z; signal := None |}]) by (repeat constructor).
  split; [exact Hset|]. split; [exact Hfin|].
  exact (launch_end_to_end (Some 1) (installed_platform Linux) launch_world launch_world
           (server_command installed_sidecar) [Stdout "tauri-server-port=8080"; Stderr "warning"]
           [Terminated {| code := Some 0%Z; signal := None |}] "tauri-client-ready" demo_final
           Hset eq_refl eq_refl H1 H2 eq_refl demo_final_reached Hfin).
Defined.
