(* ===== verification/Readiness.v ===== *)
(** * The readiness protocol: the order of [close] and [show], and later ready lines

    On the ready marker the router closes the splash window and then
    shows the main window (lines 131-132).  This file states that
    order as a property of the trace of window calls, and follows what
    the code does when the marker comes again.

    - [shows_after_close] checks a trace: every [show] of the main window
      comes right after a [close] of the splash window.  Every handler
      run, every run of the loop and every reachable state of the system
      keeps the property: the main window never appears while the
      splash is still up.
    - A later ready line reaches [splashscreen_window.close().unwrap()]
      on a splash window that is already closed.  The window laws do not
      say what [close] does then; Tauri 1 posts a message that its event
      loop drops and returns [Ok].  Under that hypothesis
      ([close_closed_ok]) the section [RepeatedReady] shows that once the
      main window is shown and the splash closed ([revealed]), every
      event, a ready line included, is handled without a panic and keeps
      them so ([router_loop_revealed]). *)

From Stdlib Require Import Ascii String ZArith.
From stdpp Require Import base list strings relations gmap.
From S2P Require Import Prelude RustStr Navigation Sidecar Window Router System.

Open Scope quickview_scope.

(** Whether effect [e], coming after [prev], is a [show] of the main
    window that does not directly follow a [close] of the splash. *)
Definition show_follows_close (prev : option Effect) (e : Effect) : bool :=
  match e with
  | EShow l =>
      if decide (l = main_label) then
        match prev with Some (EClose l') => bool_decide (l' = splash_label) | _ => false end
      else true
  | _ => true
  end.

Fixpoint shows_after_close (prev : option Effect) (t : list Effect) : bool :=
  match t with
  | [] => true
  | e :: t' => show_follows_close prev e && shows_after_close (Some e) t'
  end.

Section Succeed.
Context {W : Type} `{WindowOps W}.

(** Every [close] and [show] of [effs] returns [Ok] when it runs. *)
Fixpoint effects_succeed (effs : list Effect) (wd : World W) : Prop :=
  match effs with
  | [] => True
  | e :: effs' =>
      match e with
      | EClose l => (win_close l (wd_win wd)).1 = Ok tt
      | EShow l => (win_show l (wd_win wd)).1 = Ok tt
      | _ => True
      end ∧ effects_succeed effs' (exec_effect e wd)
  end.

(** The main window is shown and the splash window closed. *)
Definition revealed (w : W) : Prop :=
  win_obs w main_label = (true, true) ∧ win_obs w splash_label = (false, false).
End Succeed.

(** ** Lemmas on traces *)

Lemma shows_after_close_app (p : option Effect) (a b : list Effect) :
  shows_after_close p a = true → (∀ p', shows_after_close p' b = true) →
  shows_after_close p (a ++ b) = true.
Proof.
  revert p; induction a as [|e a IH]; intros p; simpl; [auto|].
  intros [He Ha]%andb_prop Hb. rewrite He. simpl. by apply IH.
Qed.

Lemma port_effects_sac (p : option Effect) (line : string) :
  shows_after_close p (port_effects line) = true.
Proof. unfold port_effects. case_match; [|done]. by case_match. Qed.

Lemma ready_effects_sac (os : target_os) (p : option Effect) (line : string) :
  shows_after_close p (ready_effects os line) = true.
Proof.
  unfold ready_effects. case_match; [|done]. case_decide; simpl; by rewrite ?decide_True.
Qed.

(** The effects of one event keep the order, whatever came before. *)
Lemma event_effects_sac (os : target_os) (p : option Effect) (e : CommandEvent) :
  shows_after_close p (event_effects os e) = true.
Proof.
  destruct e as [line|line|err|pl|]; try done. simpl.
  apply shows_after_close_app; [apply port_effects_sac|]. intros p'. apply ready_effects_sac.
Qed.

Lemma loop_effects_sac (os : target_os) (p : option Effect) (es : list CommandEvent) :
  shows_after_close p (flat_map (event_effects os) es) = true.
Proof.
  revert p; induction es as [|e es IH]; intros p; simpl; [done|].
  apply shows_after_close_app; [apply event_effects_sac|apply IH].
Qed.

Section TraceLemmas.
Context {W : Type} `{WindowOps W}.
Variable os : target_os.

Lemma handle_event_sac (e : CommandEvent) (wd wd' : World W) u :
  handle_event os e wd = Ret (u, wd') →
  shows_after_close None (wd_trace wd) = true → shows_after_close None (wd_trace wd') = true.
Proof.
  intros He Ht. rewrite (handle_event_Ret os e wd wd' u He), exec_effects_trace.
  apply shows_after_close_app; [done|]. intros p. apply event_effects_sac.
Qed.
End TraceLemmas.

Section RepeatedReady.
Context {W : Type} `{WindowOps W} `{!WindowLaws W}.
Variable os : target_os.

(** Tauri 1: [close] of a window that is not open posts a message the
    event loop drops; it returns [Ok] and changes no window. *)
Hypothesis close_closed_ok : ∀ w l, win_is_open w l = false →
  (win_close l w).1 = Ok tt ∧ ∀ l', win_obs (win_close l w).2 l' = win_obs w l'.

Lemma effects_succeed_app (a b : list Effect) (wd : World W) :
  effects_succeed (a ++ b) wd ↔ effects_succeed a wd ∧ effects_succeed b (exec_effects a wd).
Proof.
  revert wd; induction a as [|e a IH]; intros wd; simpl; [tauto|].
  rewrite IH. tauto.
Qed.

Lemma passive_effects_succeed (effs : list Effect) (wd : World W) :
  Forall (λ e, passive e = true) effs → effects_succeed effs wd.
Proof.
  intros Hp. revert wd; induction Hp as [|e effs He Hp IH]; intros wd; simpl; [done|].
  split; [|apply IH]. by destruct e.
Qed.

(** Effects that touch no window keep every window's observation. *)
Lemma passive_obs (effs : list Effect) (wd : World W) l :
  Forall (λ e, passive e = true) effs →
  win_obs (wd_win (exec_effects effs wd)) l = win_obs (wd_win wd) l.
Proof.
  intros Hp. rewrite exec_effects_obs by (by apply passive_effects_ok).
  by apply effects_obs_passive.
Qed.

(** When every [close] and [show] returns [Ok], the handler returns and
    performs [event_effects]. *)
Lemma handle_event_succeed (e : CommandEvent) (wd : World W) :
  effects_succeed (event_effects os e) wd →
  handle_event os e wd = Ret (tt, exec_effects (event_effects os e) wd).
Proof.
  destruct e as [line|line|err|p|]; unfold_router; simpl; try done.
  destruct (str_contains port_marker line) eqn:Hp;
    [destruct (extract_port line) as [port|m] eqn:Hx|];
    destruct (str_contains ready_marker line); simpl;
    try (destruct (extract_port_total line Hp) as [q Hq]; congruence);
    try done;
    case_decide; simpl; intros; destruct_and?;
    repeat match goal with H : (_ _ _).1 = Ok tt |- _ => rewrite H; simpl; clear H end; done.
Qed.

(** The effects of a ready line: window-neutral ones, then [close] of
    the splash and [show] of the main window. *)
Lemma ready_effects_split (line : string) :
  ready_marker in_str line →
  ∃ pre, Forall (λ e, passive e = true) pre ∧
         event_effects os (Stdout line) = pre ++ [EClose splash_label; EShow main_label].
Proof.
  intros Hr. simpl. unfold ready_effects. rewrite Hr.
  eexists (EPrint _ :: port_effects line ++ [ESleep 2] ++
           (if decide (os = MacOS) then [EEval main_label final_dpi_script] else [])).
  split; [|simpl; by rewrite <-?app_assoc].
  constructor; [done|]. apply Forall_app; split; [apply port_effects_passive|].
  constructor; [done|]. case_decide; by repeat constructor.
Qed.

Lemma obs_open (w : W) l b : win_obs w l = (true, b) → win_is_open w l = true.
Proof. unfold win_obs. by intros [= ->]. Qed.

Lemma obs_closed (w : W) l b : win_obs w l = (false, b) → win_is_open w l = false.
Proof. unfold win_obs. by intros [= ->]. Qed.

(** Once the main window is shown and the splash closed, every event is
    handled without a panic and keeps them so, a ready line included. *)
Lemma handle_event_revealed (e : CommandEvent) (wd : World W) :
  revealed (wd_win wd) →
  handle_event os e wd = Ret (tt, exec_effects (event_effects os e) wd) ∧
  revealed (wd_win (exec_effects (event_effects os e) wd)).
Proof.
  intros [Hm Hs]. destruct (is_ready_event e) eqn:Hr.
  - destruct e as [line| | | |]; try discriminate.
    destruct (ready_effects_split line Hr) as (pre & Hp & Hpre).
    set (wp := exec_effects pre wd).
    assert (Ho : ∀ l, win_obs (wd_win wp) l = win_obs (wd_win wd) l) by (intros; by apply passive_obs).
    destruct (close_closed_ok (wd_win wp) splash_label) as [Hc Hco];
      [apply (obs_closed _ _ false); by rewrite Ho|].
    assert (Hm' : win_obs (wd_win (exec_effect (EClose splash_label) wp)) main_label = (true, true))
      by (simpl; by rewrite Hco, Ho).
    destruct (show_ok main_label _ (obs_open _ _ _ Hm')) as [Hsh Hsho].
    split.
    + apply handle_event_succeed. rewrite Hpre. apply effects_succeed_app.
      split; [by apply passive_effects_succeed|]. cbn [effects_succeed]. fold wp.
      split; [exact Hc|]. split; [exact Hsh|done].
    + rewrite Hpre, exec_effects_app. simpl. fold wp. split; [exact Hsho|].
      rewrite show_frame by discriminate. simpl. by rewrite Hco, Ho.
  - pose proof (non_ready_passive os e Hr) as Hp. split.
    + by apply handle_event_exec, passive_effects_ok.
    + split; by rewrite passive_obs.
Qed.

Lemma router_loop_revealed (es : list CommandEvent) (wd : World W) :
  revealed (wd_win wd) →
  router_loop os es wd = Ret (tt, exec_effects (flat_map (event_effects os) es) wd) ∧
  revealed (wd_win (exec_effects (flat_map (event_effects os) es) wd)).
Proof.
  revert wd; induction es as [|e es IH]; intros wd Hv; simpl; [done|].
  destruct (handle_event_revealed e wd Hv) as [He Hv'].
  rewrite (stm_bind_Ret _ _ _ tt _ He), exec_effects_app. by apply IH.
Qed.
End RepeatedReady.

(** ** The order holds over every interleaving *)

Section SystemOrder.
Context {W : Type} `{WindowOps W}.
Variable os : target_os.
Variable cap : option nat.

(** C8: in every state the system reaches, the main window has only
    ever been shown right after the splash window was closed (when the
    trace of the starting world had the property): handling an event
    never shows the main window on its own. *)
Theorem system_show_after_close (wd0 : World W) (s : System W) :
  rtc (step os cap) (sys_init wd0) s →
  shows_after_close None (wd_trace wd0) = true →
  shows_after_close None (wd_trace (sy_world s)) = true.
Proof.
  intros Hr H0. remember (sys_init wd0) as s0 eqn:E.
  assert (Hi : shows_after_close None (wd_trace (sy_world s0)) = true) by (by subst).
  clear E. induction Hr as [s|s1 s2 s3 Hst _ IH]; [done|]. apply IH.
  destruct Hst as [s e ch' _|s _|s s' Ht]; [done|done|].
  destruct Ht as [s e ch' wd' _ _ He|s e ch' msg _ _ _|s _ _]; simpl; [|done|done].
  by eapply handle_event_sac.
Qed.
End SystemOrder.

(** ** Witnesses *)

Lemma system_show_after_close_witness :
  rtc (step Linux None) (sys_init launch_world) ready_state ∧
  shows_after_close None (wd_trace launch_world) = true ∧
  shows_after_close None (wd_trace (sy_world ready_state)) = true.
Proof.
  split; [exact ready_reachable|]. split; [reflexivity|].
  exact (system_show_after_close Linux None launch_world ready_state ready_reachable eq_refl).
Defined.
