(* ===== verification/Schedule.v ===== *)
(** * What a launch ends with, whatever the schedule

    [Launch.v] lets the child's readers and the router task interleave
    freely.  This file shows that the interleaving does not matter for
    what the program ends with:

    - a finished task has received the child's whole output, and its
      world is the sequential loop [router_loop] run on it;
    - a crashed task stopped at the first event of the output whose
      handler panics ([first_panic]): the events it received are the
      output up to that event, and its world is the loop run on the
      events before it.  Everything the child prints after that is
      lost;
    - hence two final launches from the same start agree on the task's
      state, the events it received and its world, whatever the
      interleaving and whatever the channel's capacity. *)

From Stdlib Require Import Ascii String ZArith.
From stdpp Require Import base list strings relations.
From S2P Require Import Prelude RustStr Navigation Sidecar Window Router Setup System Launch.

Open Scope quickview_scope.

(** [e] is the first event of [out] whose handler panics (with [msg]),
    reached after [pre] ran to the world [w]. *)
Definition first_panic {W} `{WindowOps W} (os : target_os) (out : list CommandEvent)
    (wd : World W) (pre : list CommandEvent) (e : CommandEvent) (w : World W) (msg : string) : Prop :=
  pre ++ [e] `prefix_of` out ∧ router_loop os pre wd = Ret (tt, w) ∧ handle_event os e w = Panic msg.

(** ** Lemmas on prefixes of the output *)

Lemma prefix_snoc_inv {A} (l k : list A) (x : A) :
  l `prefix_of` k ++ [x] → l = k ++ [x] ∨ l `prefix_of` k.
Proof.
  intros [r Hr]. destruct r as [|y r _] using rev_ind.
  - left. by rewrite app_nil_r in Hr.
  - right. rewrite app_assoc in Hr. apply app_inj_tail in Hr as [-> _]. by eexists.
Qed.

Section FirstPanic.
Context {W : Type} `{WindowOps W}.
Variable os : target_os.

Lemma first_panic_loop (out pre : list CommandEvent) e (wd w : World W) msg :
  first_panic os out wd pre e w msg → router_loop os (pre ++ [e]) wd = Panic msg.
Proof. intros (_ & Hl & He). by eapply router_loop_snoc_panic. Qed.

(** A panic on a prefix of the output is a panic of the whole loop. *)
Lemma first_panic_not_Ret (out pre : list CommandEvent) e (wd w w' : World W) msg :
  first_panic os out wd pre e w msg → router_loop os out wd ≠ Ret (tt, w').
Proof.
  intros Hf. pose proof (first_panic_loop out pre e wd w msg Hf) as Hpl.
  destruct Hf as ([rest ->] & _ & _). by rewrite (router_loop_prefix_panic os _ rest wd msg Hpl).
Qed.

(** The first panicking event of an output is unique. *)
Lemma first_panic_unique (out pre1 pre2 : list CommandEvent) e1 e2 (wd w1 w2 : World W) m1 m2 :
  first_panic os out wd pre1 e1 w1 m1 → first_panic os out wd pre2 e2 w2 m2 →
  pre1 = pre2 ∧ e1 = e2 ∧ w1 = w2 ∧ m1 = m2.
Proof.
  (* The shorter of the two prefixes is a prefix of the other one's
     [pre], whose loop would then panic instead of returning. *)
  assert (Hshort : ∀ pre1 pre2 e1 e2 (w1 w2 : World W) m1 m2,
            first_panic os out wd pre1 e1 w1 m1 → first_panic os out wd pre2 e2 w2 m2 →
            pre1 ++ [e1] `prefix_of` pre2 ++ [e2] → pre1 ++ [e1] = pre2 ++ [e2]).
  { intros p1 p2 x1 x2 v1 v2 n1 n2 Hf1 (_ & Hl2 & _) Hpre.
    destruct (prefix_snoc_inv _ _ _ Hpre) as [|[rest Hrest]]; [done|exfalso].
    rewrite Hrest, (router_loop_prefix_panic os (p1 ++ [x1]) rest wd n1) in Hl2;
      [done|by eapply first_panic_loop]. }
  intros Hf1 Hf2.
  assert (Heq : pre1 ++ [e1] = pre2 ++ [e2]).
  { destruct (prefix_weak_total (pre1 ++ [e1]) (pre2 ++ [e2]) out) as [Hp|Hp];
      [apply Hf1|apply Hf2|by eapply Hshort|symmetry; by eapply Hshort]. }
  apply app_inj_tail in Heq as [<- <-].
  destruct Hf1 as (_ & Hl1 & He1), Hf2 as (_ & Hl2 & He2).
  rewrite Hl1 in Hl2. injection Hl2 as <-. rewrite He1 in He2. by injection He2 as <-.
Qed.
End FirstPanic.

(** ** The state of a crashed task *)

Section Crashed.
Context {W : Type} `{WindowOps W}.
Variable os : target_os.
Variable cap : option nat.

(** A crashed task keeps the world it had before the event it panicked
    on: the loop ran on the events before it. *)
Definition crashed_at (wd0 : World W) (s : System W) : Prop :=
  ∀ msg, sy_task s = Crashed msg →
  ∃ pre e, sy_recvd s = pre ++ [e] ∧ router_loop os pre wd0 = Ret (tt, sy_world s) ∧
           handle_event os e (sy_world s) = Panic msg.

Lemma crashed_at_step (wd0 : World W) (s s' : System W) :
  sys_inv os wd0 s → crashed_at wd0 s → step os cap s s' → crashed_at wd0 s'.
Proof.
  intros [_ Ht] Hc Hst msg. destruct Hst as [s e ch' _|s _|s s' Hts]; [apply Hc|apply Hc|].
  destruct Hts as [s e ch' wd' Hr _ _|s e ch' msg' Hr _ He|s Hr _]; simpl; try discriminate.
  intros [= <-]. rewrite Hr in Ht. by exists (sy_recvd s), e.
Qed.

Lemma crashed_at_rtc (wd0 : World W) (s : System W) :
  rtc (step os cap) (sys_init wd0) s → crashed_at wd0 s.
Proof.
  intros Hr. remember (sys_init wd0) as s0 eqn:E.
  assert (Hi : sys_inv os wd0 s0 ∧ crashed_at wd0 s0) by (subst; split; [apply sys_inv_init|done]).
  clear E. induction Hr as [s|s1 s2 s3 Hst _ IH]; [apply Hi|]. apply IH.
  destruct Hi as [Hi Hc]. split; [by eapply sys_inv_step|by eapply crashed_at_step].
Qed.
End Crashed.

(** ** What a final launch computed *)

Section Outcome.
Context {W : Type} `{WindowOps W}.
Variable os : target_os.
Variable cap : option nat.

Lemma launch_final_outcome (wd : World W) (out : list CommandEvent) (c : Launch W) :
  rtc (lstep os cap) (launch_init wd out) c → launch_final c = true →
  (sy_task (ln_sys c) = Finished ∧ sy_recvd (ln_sys c) = out ∧
   router_loop os out wd = Ret (tt, sy_world (ln_sys c))) ∨
  (∃ msg pre e, sy_task (ln_sys c) = Crashed msg ∧ sy_recvd (ln_sys c) = pre ++ [e] ∧
                first_panic os out wd pre e (sy_world (ln_sys c)) msg).
Proof.
  intros Hrun Hfin. destruct (launch_reachable os cap wd out c Hrun) as (Hs & [Hq Ht] & [Hp Hc _ _]).
  unfold launch_final, task_running in Hfin.
  apply andb_prop in Hfin as [Hfin Hnr]. apply andb_prop in Hfin as [Hnil _].
  apply bool_decide_eq_true in Hnil.
  destruct (sy_task (ln_sys c)) as [| |msg] eqn:Htask; [done| left | right].
  - destruct Ht as (Hl & Hqe & _). rewrite Hqe, app_nil_r in Hq.
    assert (Hrecv : sy_recvd (ln_sys c) = out).
    { rewrite <-Hq, <-(app_nil_r (sy_sent _)), <-Hnil. apply Hc. intros msg. by rewrite ?Htask. }
    by rewrite <-Hrecv.
  - destruct (crashed_at_rtc os cap wd _ Hs msg Htask) as (pre & e & Hre & Hl & He).
    exists msg, pre, e. split; [done|]. split; [done|]. split; [|done].
    rewrite <-Hre. etrans; [|exact Hp]. rewrite Hq. by eexists.
Qed.
End Outcome.

(** ** Theorems *)

Section ScheduleTheorems.
Context {W : Type} `{WindowOps W}.
Variable os : target_os.

(** C2: the schedule does not matter: two launches from the same world
    and the same child output that have both ended agree on how the
    router task ended (finished, or crashed with the same message), on
    the events it received and on its world, however the child's
    readers and the task interleaved and whatever the capacities of
    their channels. *)
Theorem launch_schedule_independent (cap1 cap2 : option nat) (wd : World W)
    (out : list CommandEvent) (c1 c2 : Launch W) :
  rtc (lstep os cap1) (launch_init wd out) c1 → rtc (lstep os cap2) (launch_init wd out) c2 →
  launch_final c1 = true → launch_final c2 = true →
  sy_task (ln_sys c1) = sy_task (ln_sys c2) ∧ sy_recvd (ln_sys c1) = sy_recvd (ln_sys c2) ∧
  sy_world (ln_sys c1) = sy_world (ln_sys c2).
Proof.
  intros Hr1 Hr2 Hf1 Hf2.
  destruct (launch_final_outcome os cap1 wd out c1 Hr1 Hf1) as [(T1 & R1 & L1)|(m1 & p1 & e1 & T1 & R1 & F1)];
  destruct (launch_final_outcome os cap2 wd out c2 Hr2 Hf2) as [(T2 & R2 & L2)|(m2 & p2 & e2 & T2 & R2 & F2)].
  - rewrite L1 in L2. injection L2 as ->. by rewrite T1, T2, R1, R2.
  - by destruct (first_panic_not_Ret os _ _ _ _ _ _ _ F2 L1).
  - by destruct (first_panic_not_Ret os _ _ _ _ _ _ _ F1 L2).
  - destruct (first_panic_unique os _ _ _ _ _ _ _ _ _ _ F1 F2) as (-> & -> & -> & ->).
    by rewrite T1, T2, R1, R2.
Qed.

End ScheduleTheorems.

(** ** Witnesses *)

(** The demo launch of [Launch.v] run by the scheduler with an
    unbounded channel instead of a channel of capacity one. *)
Definition demo_final_unbounded : Launch RefWindows :=
  launch_run Linux None (launch_measure demo_launch) demo_launch.

Lemma launch_schedule_independent_witness :
  rtc (lstep Linux (Some 1)) demo_launch demo_final ∧
  rtc (lstep Linux None) demo_launch demo_final_unbounded ∧
  launch_final demo_final = true ∧ launch_final demo_final_unbounded = true ∧
  sy_task (ln_sys demo_final) = sy_task (ln_sys demo_final_unbounded) ∧
  sy_recvd (ln_sys demo_final) = sy_recvd (ln_sys demo_final_unbounded) ∧
  sy_world (ln_sys demo_final) = sy_world (ln_sys demo_final_unbounded).
Proof.
  pose proof (launch_run_rtc Linux None (launch_measure demo_launch) demo_launch) as H2.
  assert (F1 : launch_final demo_final = true) by (vm_compute; reflexivity).
  assert (F2 : launch_final demo_final_unbounded = true) by (vm_compute; reflexivity).
  split; [exact demo_final_reached|]. split; [exact H2|]. split; [exact F1|]. split; [exact F2|].
  exact (launch_schedule_independent Linux (Some 1) None launch_world demo_out demo_final
           demo_final_unbounded demo_final_reached H2 F1 F2).
Defined.
