(* ===== verification/Session.v ===== *)
(** * The session the user sees: navigation before the reveal, and the log

    What the launcher is for (spec, section 1): point the webview of the
    main window at the server's websocket endpoint, then swap the
    splash window for it.  This file states that end to end, over every
    schedule of the launch ([Launch.v]):

    - once the server has printed its port line and, later, its ready
      line, the main window has been sent the navigation script for
      that port (lines 84-106) before it is shown (line 132);
    - a launch whose task finished received every event of the child's
      output and logged each one with its line, in order (lines 83,
      136, 139, 142), and slept two seconds per ready line (line 109);
    - when [close] of a closed window returns [Ok] (Tauri 1), a child
      that prints the ready line more than once still gets every event
      handled, and the launch ends with the main window shown.

    [launch_final_Ret] is the bridge: when the sequential loop returns
    on the child's output, every final launch finished with the loop's
    world. *)

From Stdlib Require Import Ascii String ZArith.
From stdpp Require Import base list strings relations.
From S2P Require Import Prelude RustStr Navigation Sidecar Window Router Setup System Launch Readiness Schedule.

Open Scope quickview_scope.

(** A child that prints the ready line twice, then one more line. *)
Definition twice_ready_out : list CommandEvent :=
  [Stdout "tauri-client-ready"; Stdout "tauri-client-ready"; Stderr "late"].

Definition twice_ready_final : Launch RefWindows :=
  launch_run Linux (Some 1) 10 (launch_init launch_world twice_ready_out).

Section SessionLemmas.
Context {W : Type} `{WindowOps W}.
Variable os : target_os.
Variable cap : option nat.

(** When the loop returns on the whole output, every final launch
    finished, received the whole output, and holds the loop's world. *)
Lemma launch_final_Ret (wd w : World W) (out : list CommandEvent) (c : Launch W) :
  rtc (lstep os cap) (launch_init wd out) c → launch_final c = true →
  router_loop os out wd = Ret (tt, w) →
  sy_task (ln_sys c) = Finished ∧ sy_recvd (ln_sys c) = out ∧ sy_world (ln_sys c) = w.
Proof.
  intros Hrun Hfin Hl.
  destruct (launch_final_outcome os cap wd out c Hrun Hfin)
    as [(Ht & Hr & Hl')|(m & p & e & _ & _ & Hf)].
  - rewrite Hl in Hl'. by injection Hl' as ->.
  - by destruct (first_panic_not_Ret os _ _ _ _ _ _ _ Hf Hl).
Qed.

(** The effects of a line with the port marker and not the ready
    marker. *)
Lemma port_line_effects (line port : string) :
  port_marker in_str line → str_contains ready_marker line = false →
  extract_port line = Ret port →
  event_effects os (Stdout line) =
    [EPrint (Text ("Stdout: " +:+ line)); EEval main_label (navigation_script port)].
Proof.
  intros Hp Hr Hx. simpl. unfold port_effects, ready_effects. by rewrite Hp, Hx, Hr.
Qed.

(** The effects of a ready line end with [close] of the splash window
    and [show] of the main window. *)
Lemma ready_line_effects (line : string) :
  ready_marker in_str line →
  ∃ pre, event_effects os (Stdout line) = pre ++ [EClose splash_label; EShow main_label].
Proof.
  intros Hr. simpl. unfold ready_effects. rewrite Hr.
  eexists (EPrint _ :: port_effects line ++ [ESleep 2] ++
           (if decide (os = MacOS) then [EEval main_label final_dpi_script] else [])).
  simpl. by rewrite <-?app_assoc.
Qed.
End SessionLemmas.

Section SessionTheorems.
Context {W : Type} `{WindowOps W} `{!WindowLaws W}.
Variable cap : option nat.

(** C3: the main window is sent to the server before it is revealed:
    after [setup] returned on a world with both windows open, when the
    server prints a port line and later its (only) ready line, every
    schedule ends with the trace of window calls holding the [eval] in
    the main window of the navigation script for the port [extract_port]
    finds in that line, and only later the [show] of the main window. *)
Theorem launch_navigates_before_show (pf : Platform) (wd wd1 : World W) (cmd : Command)
    (es1 es2 es3 : list CommandEvent) (pline rline : string) (c : Launch W) :
  setup pf wd = Ret (wd1, cmd) →
  win_is_open (wd_win wd) splash_label = true →
  win_is_open (wd_win wd) main_label = true →
  Forall (λ e, is_ready_event e = false) es1 →
  Forall (λ e, is_ready_event e = false) es2 →
  Forall (λ e, is_ready_event e = false) es3 →
  port_marker in_str pline → str_contains ready_marker pline = false →
  ready_marker in_str rline →
  rtc (lstep (pf_os pf) cap) (launch_init wd1 (es1 ++ Stdout pline :: es2 ++ Stdout rline :: es3)) c →
  launch_final c = true →
  ∃ port t1 t2 t3, extract_port pline = Ret port ∧
    wd_trace (sy_world (ln_sys c)) =
      t1 ++ EEval main_label (navigation_script port) :: t2 ++ EShow main_label :: t3.
Proof.
  intros Hset Hs Hm H1 H2 H3 Hp Hpr Hr Hrun Hfin.
  assert (Hs1 : win_is_open (wd_win wd1) splash_label = true)
    by (by rewrite (setup_Ret_open pf wd wd1 cmd _ Hset)).
  assert (Hm1 : win_is_open (wd_win wd1) main_label = true)
    by (by rewrite (setup_Ret_open pf wd wd1 cmd _ Hset)).
  set (P := es1 ++ Stdout pline :: es2).
  assert (HP : Forall (λ e, is_ready_event e = false) P).
  { apply Forall_app. split; [done|]. by constructor. }
  assert (Hout : es1 ++ Stdout pline :: es2 ++ Stdout rline :: es3 = P ++ Stdout rline :: es3)
    by (unfold P; by rewrite <-app_assoc).
  rewrite Hout in Hrun.
  destruct (ready_run_ok (pf_os pf) P es3 rline wd1 HP H3 Hr Hs1 Hm1) as (Hok & _ & _).
  destruct (launch_final_Ret (pf_os pf) cap wd1 _ _ c Hrun Hfin (router_loop_exec _ _ _ Hok))
    as (_ & _ & ->).
  destruct (extract_port_total pline Hp) as [port Hx].
  destruct (ready_line_effects (pf_os pf) rline Hr) as [pre Hpre].
  exists port, (wd_trace wd1 ++ flat_map (event_effects (pf_os pf)) es1 ++
                [EPrint (Text ("Stdout: " +:+ pline))]),
         (flat_map (event_effects (pf_os pf)) es2 ++ pre ++ [EClose splash_label]),
         (flat_map (event_effects (pf_os pf)) es3).
  split; [done|]. rewrite exec_effects_trace. unfold P.
  rewrite !flat_map_app. cbn [flat_map].
  rewrite (port_line_effects _ pline port Hp Hpr Hx), Hpre.
  by rewrite <-!app_assoc.
Qed.

(** C21: a launch whose router task finished has received every event
    of the child's output and logged each one with its line, in order
    ([Stdout: ...], [Stderr: ...], [[Trame error] ...], [[Trame exited]
    ...], none for an unknown event), after what [setup] printed; and
    the task slept two seconds per ready line, whatever the schedule. *)
Theorem launch_log (os : target_os) (wd : World W) (out : list CommandEvent) (c : Launch W) :
  rtc (lstep os cap) (launch_init wd out) c → launch_final c = true →
  sy_task (ln_sys c) = Finished →
  sy_recvd (ln_sys c) = out ∧
  wd_stdout (sy_world (ln_sys c)) = wd_stdout wd ++ (Text <$> omap event_log_line out) ∧
  wd_clock (sy_world (ln_sys c)) = wd_clock wd + 2 * length (filter (λ e, is_ready_event e = true) out).
Proof.
  intros Hrun Hfin Ht.
  destruct (launch_final_outcome os cap wd out c Hrun Hfin)
    as [(_ & Hr & Hl)|(m & p & e & Hc & _ & _)]; [|congruence].
  apply router_loop_Ret in Hl. rewrite Hl. split; [done|].
  by rewrite exec_effects_stdout, exec_effects_clock, loop_printed, loop_sleep_total.
Qed.
End SessionTheorems.

Section RepeatedReadyLaunch.
Context {W : Type} `{WindowOps W} `{!WindowLaws W}.
Variable cap : option nat.

(** Tauri 1: [close] of a window that is not open posts a message the
    event loop drops; it returns [Ok] and changes no window. *)
Hypothesis close_closed_ok : ∀ w l, win_is_open w l = false →
  (win_close l w).1 = Ok tt ∧ ∀ l', win_obs (win_close l w).2 l' = win_obs w l'.

(** C11: repeated ready lines are harmless when [close] of a closed
    window returns [Ok] and changes nothing (hypothesis
    [close_closed_ok], Tauri 1's behaviour): after [setup] returned on a
    world with both windows open, a child whose output has a ready line,
    with no ready line before it and anything after it (more ready lines
    included), ends over every interleaving and capacity with every
    event received and handled, the task finished, the main window
    shown and the splash window closed. *)
Theorem launch_ready_repeated (pf : Platform) (wd wd1 : World W) (cmd : Command)
    (es1 es2 : list CommandEvent) (line : string) (c : Launch W) :
  setup pf wd = Ret (wd1, cmd) →
  win_is_open (wd_win wd) splash_label = true →
  win_is_open (wd_win wd) main_label = true →
  Forall (λ e, is_ready_event e = false) es1 →
  ready_marker in_str line →
  rtc (lstep (pf_os pf) cap) (launch_init wd1 (es1 ++ Stdout line :: es2)) c →
  launch_final c = true →
  sy_task (ln_sys c) = Finished ∧ sy_recvd (ln_sys c) = es1 ++ Stdout line :: es2 ∧
  win_obs (wd_win (sy_world (ln_sys c))) main_label = (true, true) ∧
  win_obs (wd_win (sy_world (ln_sys c))) splash_label = (false, false).
Proof.
  intros Hset Hs Hm H1 Hr Hrun Hfin.
  assert (Hs1 : win_is_open (wd_win wd1) splash_label = true)
    by (by rewrite (setup_Ret_open pf wd wd1 cmd _ Hset)).
  assert (Hm1 : win_is_open (wd_win wd1) main_label = true)
    by (by rewrite (setup_Ret_open pf wd wd1 cmd _ Hset)).
  destruct (ready_run_ok (pf_os pf) es1 [] line wd1 H1 (List.Forall_nil _) Hr Hs1 Hm1)
    as (Hok & Hmain & Hsplash).
  set (w1 := exec_effects (flat_map (event_effects (pf_os pf)) (es1 ++ [Stdout line])) wd1) in *.
  destruct (router_loop_revealed (pf_os pf) close_closed_ok es2 w1 (conj Hmain Hsplash))
    as [Hl2 [Hm2 Hs2]].
  assert (Hloop : router_loop (pf_os pf) (es1 ++ Stdout line :: es2) wd1 =
                  Ret (tt, exec_effects (flat_map (event_effects (pf_os pf)) es2) w1)).
  { replace (es1 ++ Stdout line :: es2) with ((es1 ++ [Stdout line]) ++ es2)
      by (by rewrite <-app_assoc).
    rewrite router_loop_app, (stm_bind_Ret _ _ _ tt w1 (router_loop_exec _ _ _ Hok)).
    exact Hl2. }
  destruct (launch_final_Ret (pf_os pf) cap wd1 _ _ c Hrun Hfin Hloop) as (Ht & Hrecv & ->).
  done.
Qed.
End RepeatedReadyLaunch.

(** ** Witnesses *)

Lemma launch_navigates_before_show_witness :
  launch_final demo_final = true ∧
  ∃ port t1 t2 t3, extract_port "tauri-server-port=8080" = Ret port ∧
    wd_trace (sy_world (ln_sys demo_final)) =
      t1 ++ EEval main_label (navigation_script port) :: t2 ++ EShow main_label :: t3.
Proof.
  assert (Hset : setup (installed_platform Linux) launch_world =
                 Ret (launch_world, server_command installed_sidecar)) by (vm_compute; reflexivity).
  assert (Hfin : launch_final demo_final = true) by (vm_compute; reflexivity).
  assert (H2 : Forall (λ e, is_ready_event e = false) [Stderr "warning"]) by (repeat constructor).
  assert (H3 : Forall (λ e, is_ready_event e = false)
                 [Terminated {| code := Some 0%Z; signal := None |}]) by (repeat constructor).
  split; [exact Hfin|].
  exact (launch_navigates_before_show (Some 1) (installed_platform Linux) launch_world launch_world
           (server_command installed_sidecar) [] [Stderr "warning"]
           [Terminated {| code := Some 0%Z; signal := None |}]
           "tauri-server-port=8080" "tauri-client-ready" demo_final Hset eq_refl eq_refl
           (List.Forall_nil _) H2 H3 eq_refl eq_refl eq_refl demo_final_reached Hfin).
Defined.

Lemma launch_log_witness :
  launch_final demo_final = true ∧ sy_task (ln_sys demo_final) = Finished ∧
  sy_recvd (ln_sys demo_final) = demo_out ∧
  wd_stdout (sy_world (ln_sys demo_final)) = wd_stdout launch_world ++ (Text <$> omap event_log_line demo_out) ∧
  wd_clock (sy_world (ln_sys demo_final)) =
    wd_clock launch_world + 2 * length (filter (λ e, is_ready_event e = true) demo_out).
Proof.
  assert (Hfin : launch_final demo_final = true) by (vm_compute; reflexivity).
  assert (Ht : sy_task (ln_sys demo_final) = Finished) by (vm_compute; reflexivity).
  split; [exact Hfin|]. split; [exact Ht|].
  exact (launch_log (Some 1) Linux launch_world demo_out demo_final demo_final_reached Hfin Ht).
Defined.

Lemma launch_ready_repeated_witness :
  launch_final twice_ready_final = true ∧
  sy_task (ln_sys twice_ready_final) = Finished ∧
  sy_recvd (ln_sys twice_ready_final) =
    [] ++ Stdout "tauri-client-ready" :: [Stdout "tauri-client-ready"; Stderr "late"] ∧
  win_obs (wd_win (sy_world (ln_sys twice_ready_final))) main_label = (true, true) ∧
  win_obs (wd_win (sy_world (ln_sys twice_ready_final))) splash_label = (false, false).
Proof.
  assert (Hset : setup (installed_platform Linux) launch_world =
                 Ret (launch_world, server_command installed_sidecar)) by (vm_compute; reflexivity).
  assert (Hfin : launch_final twice_ready_final = true) by (vm_compute; reflexivity).
  split; [exact Hfin|].
  exact (launch_ready_repeated (Some 1) ref_close_closed_ok (installed_platform Linux)
           launch_world launch_world (server_command installed_sidecar) []
           [Stdout "tauri-client-ready"; Stderr "late"] "tauri-client-ready" twice_ready_final
           Hset eq_refl eq_refl (List.Forall_nil _) eq_refl
           (launch_run_rtc Linux (Some 1) 10 _) Hfin).
Defined.
